(** * EncryptedMessages: the on-chain message registry

    A shallow embedding of the Solidity contract [EncryptedMessages]
    together with the properties of its access-control and identity model.

    Storage mappings are finite maps read with Solidity's zero default,
    the body of every external function is written in a small
    state-and-revert monad over the contract's world (storage, the
    collaborator's access-control list and the event log), and a
    transaction discards the writes of a body that reverts. *)

From Stdlib Require Import NArith Ascii.
From stdpp Require Import gmap strings list fin_maps sorting.

Local Open Scope N_scope.

(** ** Value types *)

(** [address] is a 160-bit word, [uint256] a 256-bit word, and the
    encrypted types [euint64], [euint32], [externalEuint64] and
    [externalEuint32] are [bytes32] handles. *)
Abbreviation address := N (only parsing).
Abbreviation uint256 := N (only parsing).
Abbreviation uint64 := N (only parsing).
Abbreviation uint32 := N (only parsing).
Abbreviation bytes32 := N (only parsing).
Abbreviation euint64 := N (only parsing).
Abbreviation euint32 := N (only parsing).
Abbreviation externalEuint64 := N (only parsing).
Abbreviation externalEuint32 := N (only parsing).
Abbreviation bytes := (list Byte.byte) (only parsing).

Definition uint256_max : N := 2 ^ 256 - 1.

(** ** Storage *)

(** [struct Message]; the field [exists] is spelled [exists_]. *)
Record Message : Type := mkMessage {
  sender : address;
  encryptedContent : euint64;
  encryptedTimestamp : euint32;
  createdAt : uint256;
  exists_ : bool
}.

(** What a storage slot that was never written reads as. *)
Definition zero_Message : Message :=
  {| sender := 0; encryptedContent := 0; encryptedTimestamp := 0;
     createdAt := 0; exists_ := false |}.

Record storage : Type := mkStorage {
  _messages : gmap N Message;
  _userMessages : gmap N (list N);
  _totalMessages : uint256
}.

(** [_messages[messageId]] and [_userMessages[user]] as Solidity reads them. *)
Definition messages_at (s : storage) (messageId : uint256) : Message :=
  default zero_Message (_messages s !! messageId).

Definition userMessages_at (s : storage) (user : address) : list N :=
  default [] (_userMessages s !! user).

Inductive event : Type :=
| MessageSubmitted (messageId : uint256) (sender : address) (timestamp : uint256)
| MessageAccessed (messageId : uint256) (accessor : address).

(** The world a call runs in: the contract's storage, the persistent
    (handle, account) pairs of the FHE access-control list, and the log. *)
Record world : Type := mkWorld {
  registry : storage;
  acl : gset (N * N);
  events : list event
}.

(** The call context: [msg.sender], [block.timestamp], [address(this)]. *)
Record env : Type := mkEnv {
  msg_sender : address;
  block_timestamp : uint256;
  this : address
}.

(** ** Reverts and the execution monad *)

Inductive error : Type :=
| Error (reason : string)   (* require(cond, reason) *)
| Panic (code : N)          (* checked arithmetic *)
| ProofInvalid.             (* FHE.fromExternal rejected the input proof *)

Definition MessageNotFound : error := Error "Message does not exist".
Definition NotAuthorized : error := Error "Not authorized".

(** A body maps the world to its result and the world at the point where it
    stopped; on a revert that is the world at the failing statement. *)
Definition M (A : Type) : Type := world → (error + A) * world.

#[export] Instance M_ret : MRet M := λ A a w, (inr a, w).

#[export] Instance M_bind : MBind M := λ A B f m w,
  match m w with
  | (inl e, w') => (inl e, w')
  | (inr a, w') => f a w'
  end.

Definition revert {A : Type} (e : error) : M A := λ w, (inl e, w).

Definition require (cond : bool) (reason : string) : M unit :=
  if cond then mret tt else revert (Error reason).

Definition sload {A : Type} (f : storage → A) : M A :=
  λ w, (inr (f (registry w)), w).

Definition sstore (f : storage → storage) : M unit :=
  λ w, (inr tt, {| registry := f (registry w); acl := acl w; events := events w |}).

Definition emit (ev : event) : M unit :=
  λ w, (inr tt, {| registry := registry w; acl := acl w; events := events w ++ [ev] |}).

(** ** The FHE collaborator *)

(** The library behind [FHE.fromExternal] and [FHE.asEuintXX] is not part of
    the contract: importing an external handle either yields the internal
    handle or rejects the proof, and wrapping a plaintext yields a handle.
    The same library's [ZamaConfig.sol] holds the parent contract
    [ZamaEthereumConfig]; the number that its public view function
    [confidentialProtocolId()] returns is the library's to choose. *)
Class FHE : Type := {
  fromExternal64 : env → externalEuint64 → bytes → option euint64;
  fromExternal32 : env → externalEuint32 → bytes → option euint32;
  asEuint64 : uint64 → euint64;
  asEuint32 : uint32 → euint32;
  getConfidentialProtocolId : env → uint256
}.

(** Modelled from the spec: [FHE.allow] is the collaborator's
    [grantAccess(internalHandle, identity)]; it records the pair in the
    access-control list. *)
Definition FHE_allow (handle : bytes32) (account : address) : M unit :=
  λ w, (inr tt, {| registry := registry w; acl := {[ (handle, account) ]} ∪ acl w;
                   events := events w |}).

Definition FHE_allowThis (e : env) (handle : bytes32) : M unit :=
  FHE_allow handle (this e).

Definition FHE_fromExternal {A : Type} (import : option A) : M A :=
  match import with
  | Some h => mret h
  | None => revert ProofInvalid
  end.

(** ** Storage writes used by the contract *)

(** [_totalMessages++]: yields the old value; Solidity 0.8 reverts with
    Panic(0x11) instead of wrapping. *)
Definition post_increment_totalMessages : M uint256 :=
  n ← sload _totalMessages;
  if decide (n = uint256_max) then revert (Panic 17)
  else sstore (λ s, {| _messages := _messages s; _userMessages := _userMessages s;
                       _totalMessages := n + 1 |});; mret n.

(** [_messages[messageId] = m] *)
Definition store_message (messageId : uint256) (m : Message) : M unit :=
  sstore (λ s, {| _messages := <[messageId := m]> (_messages s);
                  _userMessages := _userMessages s;
                  _totalMessages := _totalMessages s |}).

(** [_userMessages[user].push(messageId)] *)
Definition push_userMessages (user : address) (messageId : uint256) : M unit :=
  sstore (λ s, {| _messages := _messages s;
                  _userMessages := <[user := userMessages_at s user ++ [messageId]]> (_userMessages s);
                  _totalMessages := _totalMessages s |}).

(** ** The external interface *)

(** One constructor per [external] function of the contract, in source
    order, with the function's arguments, and last the public function that
    the contract inherits through [is ZamaEthereumConfig]. *)
Inductive call : Type :=
| SubmitMessage (encryptedContent : externalEuint64)
    (encryptedTimestamp : externalEuint32) (inputProof : bytes)
| GetUserMessages
| GetUserMessageCount (user : address)
| GetMessageMetadata (messageId : uint256)
| GetEncryptedContent (messageId : uint256)
| GetEncryptedTimestamp (messageId : uint256)
| GetTotalMessages
| IsMessageOwner (messageId : uint256)
| SubmitMessageMock (content : uint64) (timestamp : uint32)
| ConfidentialProtocolId.

(** What a call hands back to its caller. *)
Inductive retval : Type :=
| RUnit
| RIds (ids : list N)
| RUint (n : uint256)
| RMetadata (sender : address) (createdAt : uint256) (exists_ : bool)
| RHandle (handle : bytes32)
| RBool (b : bool).

(** The functions declared [view] in the source. *)
Definition is_view (c : call) : bool :=
  match c with
  | SubmitMessage _ _ _ | SubmitMessageMock _ _ => false
  | _ => true
  end.

Definition is_submitMessage (c : call) : bool :=
  match c with
  | SubmitMessage _ _ _ => true
  | _ => false
  end.

Definition is_submitMessageMock (c : call) : bool :=
  match c with
  | SubmitMessageMock _ _ => true
  | _ => false
  end.

(** The name of the source function behind an entry point. *)
Definition call_name (c : call) : string :=
  match c with
  | SubmitMessage _ _ _ => "submitMessage"
  | GetUserMessages => "getUserMessages"
  | GetUserMessageCount _ => "getUserMessageCount"
  | GetMessageMetadata _ => "getMessageMetadata"
  | GetEncryptedContent _ => "getEncryptedContent"
  | GetEncryptedTimestamp _ => "getEncryptedTimestamp"
  | GetTotalMessages => "getTotalMessages"
  | IsMessageOwner _ => "isMessageOwner"
  | SubmitMessageMock _ _ => "submitMessageMock"
  | ConfidentialProtocolId => "confidentialProtocolId"
  end.

(** The [external view] functions, in source order, and the inherited
    [public view] function. *)
Definition view_functions : list string :=
  ["getUserMessages"; "getUserMessageCount"; "getMessageMetadata";
   "getEncryptedContent"; "getEncryptedTimestamp"; "getTotalMessages";
   "isMessageOwner"; "confidentialProtocolId"].

(** The functions that are not [view]. *)
Definition writing_functions : list string :=
  ["submitMessage"; "submitMessageMock"].

(** The ids [0 .. n-1] in increasing order. *)
Definition ids_below (n : N) : list N := N.of_nat <$> seq 0 (N.to_nat n).

(** The contract right after deployment, next to an access-control list
    that other contracts may already have written to. *)
Definition deployed (a : gset (N * N)) : world :=
  {| registry := {| _messages := ∅; _userMessages := ∅; _totalMessages := 0 |};
     acl := a; events := [] |}.

(** ** The contract *)

Section EncryptedMessages.
Context `{fhe : FHE}.

Definition submitMessage (e : env) (encryptedContent : externalEuint64)
    (encryptedTimestamp : externalEuint32) (inputProof : bytes) : M unit :=
  content ← FHE_fromExternal (fromExternal64 e encryptedContent inputProof);
  timestamp ← FHE_fromExternal (fromExternal32 e encryptedTimestamp inputProof);
  messageId ← post_increment_totalMessages;
  store_message messageId
    {| sender := msg_sender e; encryptedContent := content;
       encryptedTimestamp := timestamp; createdAt := block_timestamp e;
       exists_ := true |};;
  push_userMessages (msg_sender e) messageId;;
  FHE_allowThis e content;;
  FHE_allow content (msg_sender e);;
  FHE_allowThis e timestamp;;
  FHE_allow timestamp (msg_sender e);;
  emit (MessageSubmitted messageId (msg_sender e) (block_timestamp e)).

Definition getUserMessages (e : env) : M (list N) :=
  sload (λ s, userMessages_at s (msg_sender e)).

Definition getUserMessageCount (e : env) (user : address) : M uint256 :=
  sload (λ s, N.of_nat (length (userMessages_at s user))).

Definition getMessageMetadata (e : env) (messageId : uint256)
    : M (address * uint256 * bool) :=
  message ← sload (λ s, messages_at s messageId);
  mret (sender message, createdAt message, exists_ message).

Definition getEncryptedContent (e : env) (messageId : uint256) : M euint64 :=
  ex ← sload (λ s, exists_ (messages_at s messageId));
  require ex "Message does not exist";;
  owner ← sload (λ s, sender (messages_at s messageId));
  require (bool_decide (owner = msg_sender e)) "Not authorized";;
  sload (λ s, encryptedContent (messages_at s messageId)).

Definition getEncryptedTimestamp (e : env) (messageId : uint256) : M euint32 :=
  ex ← sload (λ s, exists_ (messages_at s messageId));
  require ex "Message does not exist";;
  owner ← sload (λ s, sender (messages_at s messageId));
  require (bool_decide (owner = msg_sender e)) "Not authorized";;
  sload (λ s, encryptedTimestamp (messages_at s messageId)).

Definition getTotalMessages (e : env) : M uint256 :=
  sload _totalMessages.

Definition isMessageOwner (e : env) (messageId : uint256) : M bool :=
  sload (λ s, exists_ (messages_at s messageId)
              && bool_decide (sender (messages_at s messageId) = msg_sender e)).

Definition submitMessageMock (e : env) (content : uint64) (timestamp : uint32)
    : M unit :=
  let encContent := asEuint64 content in
  let encTimestamp := asEuint32 timestamp in
  messageId ← post_increment_totalMessages;
  store_message messageId
    {| sender := msg_sender e; encryptedContent := encContent;
       encryptedTimestamp := encTimestamp; createdAt := block_timestamp e;
       exists_ := true |};;
  push_userMessages (msg_sender e) messageId;;
  FHE_allowThis e encContent;;
  FHE_allow encContent (msg_sender e);;
  FHE_allowThis e encTimestamp;;
  FHE_allow encTimestamp (msg_sender e);;
  emit (MessageSubmitted messageId (msg_sender e) (block_timestamp e)).

(** Inherited from [ZamaEthereumConfig]: [public view], no arguments; it
    returns the library's protocol id and touches nothing of the contract. *)
Definition confidentialProtocolId (e : env) : M uint256 :=
  mret (getConfidentialProtocolId e).

(** ** Transactions *)

Definition dispatch (e : env) (c : call) : M retval :=
  match c with
  | SubmitMessage encryptedContent encryptedTimestamp inputProof =>
      submitMessage e encryptedContent encryptedTimestamp inputProof;; mret RUnit
  | GetUserMessages => ids ← getUserMessages e; mret (RIds ids)
  | GetUserMessageCount user => n ← getUserMessageCount e user; mret (RUint n)
  | GetMessageMetadata messageId =>
      r ← getMessageMetadata e messageId; mret (RMetadata r.1.1 r.1.2 r.2)
  | GetEncryptedContent messageId =>
      h ← getEncryptedContent e messageId; mret (RHandle h)
  | GetEncryptedTimestamp messageId =>
      h ← getEncryptedTimestamp e messageId; mret (RHandle h)
  | GetTotalMessages => n ← getTotalMessages e; mret (RUint n)
  | IsMessageOwner messageId => b ← isMessageOwner e messageId; mret (RBool b)
  | SubmitMessageMock content timestamp =>
      submitMessageMock e content timestamp;; mret RUnit
  | ConfidentialProtocolId => n ← confidentialProtocolId e; mret (RUint n)
  end.

(** The ledger applies a call atomically: the writes of a body that reverts
    are discarded. *)
Definition transact (e : env) (c : call) (w : world) : (error + retval) * world :=
  match dispatch e c w with
  | (inl err, _) => (inl err, w)
  | (inr v, w') => (inr v, w')
  end.

Definition succeeds (e : env) (c : call) (w : world) : bool :=
  match (transact e c w).1 with
  | inr _ => true
  | inl _ => false
  end.

(** A history of calls, applied in order. *)
Definition run (w : world) (txs : list (env * call)) : world :=
  foldl (λ w t, (transact t.1 t.2 w).2) w txs.

Inductive reachable : world → Prop :=
| reachable_deployed a : reachable (deployed a)
| reachable_transact w e c : reachable w → reachable (transact e c w).2.

(** How many calls of a history were submissions by [u] that went through. *)
Fixpoint submissions_by (u : address) (w : world) (txs : list (env * call)) : nat :=
  match txs with
  | [] => 0
  | (e, c) :: txs' =>
      (if negb (is_view c) && succeeds e c w && bool_decide (msg_sender e = u)
       then 1 else 0)%nat
      + submissions_by u (transact e c w).2 txs'
  end.

(** Every call of a history went through. *)
Fixpoint all_succeed (w : world) (txs : list (env * call)) : bool :=
  match txs with
  | [] => true
  | (e, c) :: txs' => succeeds e c w && all_succeed (transact e c w).2 txs'
  end.

End EncryptedMessages.

(** ** Specification vocabulary *)

(** The world after the bookkeeping of a submission by [msg_sender e] that
    stores the handles [content] and [timestamp]. *)
Definition recorded (e : env) (content timestamp : bytes32) (w : world) : world :=
  let messageId := _totalMessages (registry w) in
  {| registry :=
       {| _messages :=
            <[messageId := {| sender := msg_sender e; encryptedContent := content;
                              encryptedTimestamp := timestamp;
                              createdAt := block_timestamp e; exists_ := true |}]>
              (_messages (registry w));
          _userMessages :=
            <[msg_sender e := userMessages_at (registry w) (msg_sender e) ++ [messageId]]>
              (_userMessages (registry w));
          _totalMessages := messageId + 1 |};
     acl := {[ (timestamp, msg_sender e) ]} ∪ ({[ (timestamp, this e) ]} ∪
            ({[ (content, msg_sender e) ]} ∪ ({[ (content, this e) ]} ∪ acl w)));
     events := events w ++
               [MessageSubmitted messageId (msg_sender e) (block_timestamp e)] |}.

(** The id carried by a creation event. *)
Definition event_id (ev : event) : uint256 :=
  match ev with
  | MessageSubmitted messageId _ _ => messageId
  | MessageAccessed messageId _ => messageId
  end.

(** The creation event of the message stored at [messageId]. *)
Definition creation_event (s : storage) (messageId : uint256) : event :=
  MessageSubmitted messageId (sender (messages_at s messageId))
                   (createdAt (messages_at s messageId)).

(** The consistency of the three storage variables and the log. *)
Record registry_inv (w : world) : Prop := mkRegistryInv {
  inv_dom : ∀ messageId,
    is_Some (_messages (registry w) !! messageId) ↔
    messageId < _totalMessages (registry w);
  inv_exists : ∀ messageId m,
    _messages (registry w) !! messageId = Some m → exists_ m = true;
  inv_size : size (_messages (registry w)) = N.to_nat (_totalMessages (registry w));
  inv_index : ∀ u,
    userMessages_at (registry w) u =
    filter (λ messageId, sender (messages_at (registry w) messageId) = u)
           (ids_below (_totalMessages (registry w)));
  inv_events :
    events w = creation_event (registry w) <$> ids_below (_totalMessages (registry w));
  inv_bound : _totalMessages (registry w) ≤ uint256_max
}.

(** ** Test data *)

(** A collaborator that accepts every non-empty proof and keeps the handle,
    and wraps a plaintext [x] as the handle [1000 + x]. *)
Definition stub_fhe : FHE :=
  {| fromExternal64 := λ _ h p, match p with [] => None | _ => Some h end;
     fromExternal32 := λ _ h p, match p with [] => None | _ => Some h end;
     asEuint64 := λ x, 1000 + x;
     asEuint32 := λ x, 1000 + x;
     getConfidentialProtocolId := λ _, 10001 |}.

(** A collaborator that rejects every proof. *)
Definition rejecting_fhe : FHE :=
  {| fromExternal64 := λ _ _ _, None;
     fromExternal32 := λ _ _ _, None;
     asEuint64 := λ x, 1000 + x;
     asEuint32 := λ x, 1000 + x;
     getConfidentialProtocolId := λ _, 10001 |}.

Definition alice : address := 161.
Definition bob : address := 178.
Definition registry_address : address := 4096.

Definition as_alice : env :=
  {| msg_sender := alice; block_timestamp := 1700000000; this := registry_address |}.
Definition as_bob : env :=
  {| msg_sender := bob; block_timestamp := 1700000012; this := registry_address |}.

Definition good_proof : bytes := [Byte.x01].

(** Alice submits handles 11 and 12, then Bob submits handles 21 and 22. *)
Definition two_submissions : list (env * call) :=
  [(as_alice, SubmitMessage 11 12 good_proof); (as_bob, SubmitMessage 21 22 good_proof)].

Definition world1 : world := run (fhe := stub_fhe) (deployed ∅) (take 1 two_submissions).
Definition world2 : world := run (fhe := stub_fhe) (deployed ∅) two_submissions.

(** A world whose counter holds the largest [uint256]. *)
Definition full_world : world :=
  {| registry := {| _messages := ∅; _userMessages := ∅;
                    _totalMessages := uint256_max |};
     acl := ∅; events := [] |}.

(** ** Counting submissions *)

Section Counting.
Context `{fhe : FHE}.

(** How many calls of a history were submissions, by anyone and through
    either of the two submitting functions, that went through. *)
Fixpoint submissions (w : world) (txs : list (env * call)) : nat :=
  match txs with
  | [] => 0
  | (e, c) :: txs' =>
      (if negb (is_view c) && succeeds e c w then 1 else 0)%nat
      + submissions (transact e c w).2 txs'
  end.

End Counting.

(** ** The frontend's hex conversion *)

(** [toHex] of the page component takes a [Uint8Array] or a string that is
    already hex. *)
Inductive hex_data : Type :=
| Uint8Array (data : list Byte.byte)
| HexString (s : string).

(** The digits of [toString(16)], indexed by their value. *)
Definition hex_alphabet : list Ascii.ascii :=
  String.list_ascii_of_string "0123456789abcdef".

(** The digit that [toString(16)] prints for a value below 16. *)
Definition hex_digit (n : N) : Ascii.ascii :=
  default "f"%char (hex_alphabet !! N.to_nat n).

(** [b.toString(16)] for an element [b] of a [Uint8Array]: one digit below
    16, two digits otherwise. *)
Definition byte_toString16 (b : Byte.byte) : string :=
  let n := Byte.to_N b in
  if n <? 16 then String (hex_digit n) EmptyString
  else String (hex_digit (n / 16)) (String (hex_digit (n mod 16)) EmptyString).

Fixpoint string_repeat (k : nat) (s : string) : string :=
  match k with
  | O => EmptyString
  | S k' => s +:+ string_repeat k' s
  end.

Fixpoint string_take (n : nat) (s : string) : string :=
  match n, s with
  | S n', String c s' => String c (string_take n' s')
  | _, _ => EmptyString
  end.

(** [s.padStart(targetLength, padString)]: [s] itself when it is long
    enough or the pad is empty, else the pad repeated and cut to the missing
    length, in front of [s]. *)
Definition padStart (targetLength : nat) (padString : string) (s : string) : string :=
  let len := String.length s in
  if (targetLength <=? len)%nat || bool_decide (padString = EmptyString) then s
  else string_take (targetLength - len)
         (string_repeat (targetLength - len) padString) +:+ s.

(** [parts.join("")] *)
Definition join_empty (parts : list string) : string :=
  foldr String.append EmptyString parts.

Definition toHex (data : hex_data) : string :=
  match data with
  | HexString s => s
  | Uint8Array bs =>
      "0x" +:+ join_empty ((λ b, padStart 2 "0" (byte_toString16 b)) <$> bs)
  end.

(** A decoder to state the round trip against; the source has none.
    The value of a lowercase hex digit is its position in the alphabet. *)
Definition hex_value (c : Ascii.ascii) : option N :=
  (λ found : nat * Ascii.ascii, N.of_nat found.1) <$> list_find (λ d, d = c) hex_alphabet.

(** Reading back the digits after the [0x] prefix, two per byte. *)
Fixpoint hex_bytes (s : string) : option (list Byte.byte) :=
  match s with
  | EmptyString => Some []
  | String c1 (String c2 s') =>
      match hex_value c1, hex_value c2, hex_bytes s' with
      | Some h, Some l, Some bs =>
          match Byte.of_N (16 * h + l) with
          | Some b => Some (b :: bs)
          | None => None
          end
      | _, _, _ => None
      end
  | String _ EmptyString => None
  end.

Definition fromHex (s : string) : option (list Byte.byte) :=
  match s with
  | String "0" (String "x" digits) => hex_bytes digits
  | _ => None
  end.

(** ** Execution lemmas *)

Section Execution.
Context `{fhe : FHE}.

Lemma submitMessage_unfold e ec et p w :
  submitMessage e ec et p w =
  match fromExternal64 e ec p with
  | None => (inl ProofInvalid, w)
  | Some content =>
      match fromExternal32 e et p with
      | None => (inl ProofInvalid, w)
      | Some timestamp =>
          if decide (_totalMessages (registry w) = uint256_max)
          then (inl (Panic 17), w)
          else (inr tt, recorded e content timestamp w)
      end
  end.
Proof.
  unfold submitMessage, FHE_fromExternal.
  destruct (fromExternal64 e ec p) as [content|]; [|reflexivity].
  destruct (fromExternal32 e et p) as [timestamp|]; [|reflexivity].
  unfold mbind, M_bind, post_increment_totalMessages, sload, mbind, M_bind; simpl.
  destruct (decide (_totalMessages (registry w) = uint256_max)); reflexivity.
Qed.

Lemma submitMessageMock_unfold e content timestamp w :
  submitMessageMock e content timestamp w =
  if decide (_totalMessages (registry w) = uint256_max)
  then (inl (Panic 17), w)
  else (inr tt, recorded e (asEuint64 content) (asEuint32 timestamp) w).
Proof.
  unfold submitMessageMock.
  unfold mbind, M_bind, post_increment_totalMessages, sload, mbind, M_bind; simpl.
  destruct (decide (_totalMessages (registry w) = uint256_max)); reflexivity.
Qed.

Lemma view_dispatch_world e c w :
  is_view c = true → (dispatch e c w).2 = w.
Proof.
  destruct c; try discriminate; intros _; try reflexivity.
  - unfold dispatch, getEncryptedContent, mbind, M_bind, sload, require; simpl.
    destruct (exists_ (messages_at (registry w) messageId)); [|reflexivity].
    simpl. case_bool_decide; reflexivity.
  - unfold dispatch, getEncryptedTimestamp, mbind, M_bind, sload, require; simpl.
    destruct (exists_ (messages_at (registry w) messageId)); [|reflexivity].
    simpl. case_bool_decide; reflexivity.
Qed.

Lemma transact_revert_world e c w err :
  (transact e c w).1 = inl err → (transact e c w).2 = w.
Proof.
  unfold transact. destruct (dispatch e c w) as [[err'|v] w']; [reflexivity|discriminate].
Qed.

Lemma transact_no_submission e c w :
  negb (is_view c) && succeeds e c w = false → (transact e c w).2 = w.
Proof.
  destruct (is_view c) eqn:Hview; simpl.
  - intros _. pose proof (view_dispatch_world e c w Hview) as Hw.
    unfold transact. destruct (dispatch e c w) as [[err|v] w']; simpl in *; congruence.
  - unfold succeeds. destruct (transact e c w).1 as [err|v] eqn:Hr; [|discriminate].
    intros _. by eapply transact_revert_world.
Qed.

Lemma transact_submission e c w :
  negb (is_view c) && succeeds e c w = true →
  ∃ content timestamp,
    _totalMessages (registry w) ≠ uint256_max ∧
    (transact e c w) = (inr RUnit, recorded e content timestamp w).
Proof.
  destruct c as [ec et p| | | | | | | |content timestamp|]; try discriminate;
    unfold succeeds, transact, dispatch, mbind, M_bind.
  - rewrite submitMessage_unfold.
    destruct (fromExternal64 e ec p) as [content|]; [|discriminate].
    destruct (fromExternal32 e et p) as [timestamp|]; [|discriminate].
    case_decide; [discriminate|]. intros _. by exists content, timestamp.
  - rewrite submitMessageMock_unfold.
    case_decide; [discriminate|]. intros _. by eexists _, _.
Qed.

(** A call either leaves the world as it is or performs the bookkeeping of
    one submission. *)
Lemma transact_world e c w :
  (transact e c w).2 = w ∨
  ∃ content timestamp,
    is_view c = false ∧ succeeds e c w = true ∧
    _totalMessages (registry w) ≠ uint256_max ∧
    (transact e c w).2 = recorded e content timestamp w.
Proof.
  destruct (is_view c) eqn:Hview.
  - left. pose proof (view_dispatch_world e c w Hview) as Hw.
    unfold transact. destruct (dispatch e c w) as [[err|v] w']; simpl in *; congruence.
  - destruct c as [ec et p| | | | | | | |content timestamp|]; try discriminate;
      unfold succeeds, transact, dispatch, mbind, M_bind.
    + rewrite submitMessage_unfold.
      destruct (fromExternal64 e ec p) as [content|]; [|by left].
      destruct (fromExternal32 e et p) as [timestamp|]; [|by left].
      case_decide; [by left|]. right. by exists content, timestamp.
    + rewrite submitMessageMock_unfold.
      case_decide; [by left|]. right. by eexists _, _.
Qed.

(** *** The ids below a bound *)

Lemma ids_below_succ n : ids_below (n + 1) = ids_below n ++ [n].
Proof.
  unfold ids_below.
  replace (N.to_nat (n + 1)) with (S (N.to_nat n)) by lia.
  rewrite seq_S, fmap_app. simpl. by rewrite N2Nat.id.
Qed.

Lemma elem_of_ids_below n i : i ∈ ids_below n ↔ i < n.
Proof.
  unfold ids_below. rewrite list_elem_of_fmap. split.
  - intros (k & -> & Hk). apply elem_of_seq in Hk. lia.
  - intros Hi. exists (N.to_nat i). split; [by rewrite N2Nat.id|].
    apply elem_of_seq. lia.
Qed.

Lemma length_ids_below n : length (ids_below n) = N.to_nat n.
Proof. unfold ids_below. by rewrite length_fmap, length_seq. Qed.

Lemma filter_ext_elem {A} (P Q : A → Prop) `{!∀ x, Decision (P x)}
    `{!∀ x, Decision (Q x)} (l : list A) :
  (∀ x, x ∈ l → P x ↔ Q x) → filter P l = filter Q l.
Proof.
  induction l as [|x l IH]; intros Hl; [reflexivity|].
  rewrite !filter_cons.
  rewrite IH by (intros y Hy; apply Hl; by right).
  destruct (decide (P x)) as [HP|HP], (decide (Q x)) as [HQ|HQ];
    try reflexivity; exfalso; apply (Hl x) in HP || apply (Hl x) in HQ;
    try done; by left.
Qed.

Lemma fmap_ext_elem {A B} (f g : A → B) (l : list A) :
  (∀ x, x ∈ l → f x = g x) → f <$> l = g <$> l.
Proof.
  induction l as [|x l IH]; intros Hl; [reflexivity|].
  simpl. f_equal; [apply Hl; by left|apply IH; intros y Hy; apply Hl; by right].
Qed.

(** *** The invariant *)

Lemma deployed_inv a : registry_inv (deployed a).
Proof.
  split; simpl.
  - intros i. rewrite lookup_empty. split; [by intros [? ?]|lia].
  - intros i m. by rewrite lookup_empty.
  - by rewrite map_size_empty.
  - reflexivity.
  - reflexivity.
  - lia.
Qed.

Lemma messages_at_recorded_old e c t w i :
  i ≠ _totalMessages (registry w) →
  messages_at (registry (recorded e c t w)) i = messages_at (registry w) i.
Proof. intros Hi. unfold messages_at; simpl. by rewrite lookup_insert_ne. Qed.

Lemma messages_at_recorded_new e c t w :
  messages_at (registry (recorded e c t w)) (_totalMessages (registry w)) =
  {| sender := msg_sender e; encryptedContent := c; encryptedTimestamp := t;
     createdAt := block_timestamp e; exists_ := true |}.
Proof. unfold messages_at; simpl. by rewrite lookup_insert_eq. Qed.

Lemma userMessages_at_recorded e c t w u :
  userMessages_at (registry (recorded e c t w)) u =
  if decide (msg_sender e = u)
  then userMessages_at (registry w) u ++ [_totalMessages (registry w)]
  else userMessages_at (registry w) u.
Proof.
  unfold userMessages_at at 1; simpl. rewrite lookup_insert.
  case_decide; [by subst|reflexivity].
Qed.

Lemma recorded_inv e c t w :
  _totalMessages (registry w) ≠ uint256_max →
  registry_inv w → registry_inv (recorded e c t w).
Proof.
  intros Hmax [Hdom Hex Hsize Hidx Hev Hbound].
  assert (_messages (registry w) !! _totalMessages (registry w) = None) as Hfresh.
  { apply eq_None_not_Some. rewrite Hdom. lia. }
  split.
  - intros i. simpl. rewrite lookup_insert. case_decide as Hi.
    + subst i. split; [lia|eauto].
    + rewrite Hdom. lia.
  - intros i m. simpl. rewrite lookup_insert. case_decide as Hi.
    + by intros [= <-].
    + apply Hex.
  - simpl. rewrite map_size_insert_None by done. rewrite Hsize. lia.
  - intros u. rewrite userMessages_at_recorded.
    change (_totalMessages (registry (recorded e c t w)))
      with (_totalMessages (registry w) + 1).
    rewrite ids_below_succ, filter_app.
    rewrite (filter_ext_elem _
               (λ i, sender (messages_at (registry w) i) = u) (ids_below _)).
    2:{ intros i Hi%elem_of_ids_below.
        rewrite messages_at_recorded_old by lia. done. }
    rewrite <- Hidx, filter_cons, filter_nil, messages_at_recorded_new. simpl.
    destruct (decide (msg_sender e = u)); [reflexivity|by rewrite app_nil_r].
  - change (_totalMessages (registry (recorded e c t w)))
      with (_totalMessages (registry w) + 1).
    rewrite ids_below_succ, fmap_app.
    rewrite (fmap_ext_elem _ (creation_event (registry w)) (ids_below _)).
    2:{ intros i Hi%elem_of_ids_below. unfold creation_event.
        rewrite messages_at_recorded_old by lia. done. }
    rewrite <- Hev. change (creation_event ?s <$> [?i]) with [creation_event s i].
    unfold creation_event. by rewrite messages_at_recorded_new.
  - simpl. lia.
Qed.

Lemma transact_inv e c w : registry_inv w → registry_inv (transact e c w).2.
Proof.
  intros Hinv. destruct (transact_world e c w) as [->|(c' & t' & _ & _ & ? & ->)];
    [done|by apply recorded_inv].
Qed.

Lemma reachable_inv w : reachable w → registry_inv w.
Proof.
  induction 1 as [a|w e c _ IH]; [apply deployed_inv|by apply transact_inv].
Qed.

Lemma run_snoc w txs e c :
  run w (txs ++ [(e, c)]) = (transact e c (run w txs)).2.
Proof. unfold run. by rewrite foldl_app. Qed.

Lemma run_reachable a txs : reachable (run (deployed a) txs).
Proof.
  induction txs as [|[e c] txs IH] using rev_ind; [apply reachable_deployed|].
  rewrite run_snoc. by apply reachable_transact.
Qed.

Lemma reachable_run w : reachable w → ∃ a txs, w = run (deployed a) txs.
Proof.
  induction 1 as [a|w e c _ (a & txs & ->)]; [by exists a, []|].
  exists a, (txs ++ [(e, c)]). by rewrite run_snoc.
Qed.

End Execution.

(** ** The gated reads *)

(** C1: [getEncryptedContent] and [getEncryptedTimestamp] check their
    preconditions in order.  When no message exists at [messageId] they fail
    with MessageNotFound, whoever calls; when one exists and the caller is
    not its stored sender they fail with NotAuthorized, whatever else the
    caller owns in the registry; otherwise they return the stored handle. *)
Theorem C1_gated_reads_check_in_order `{fhe : FHE} (e : env) (w : world)
    (messageId : uint256) :
  let m := messages_at (registry w) messageId in
  (exists_ m = false →
     transact e (GetEncryptedContent messageId) w = (inl MessageNotFound, w) ∧
     transact e (GetEncryptedTimestamp messageId) w = (inl MessageNotFound, w)) ∧
  (exists_ m = true → sender m ≠ msg_sender e →
     transact e (GetEncryptedContent messageId) w = (inl NotAuthorized, w) ∧
     transact e (GetEncryptedTimestamp messageId) w = (inl NotAuthorized, w)) ∧
  (exists_ m = true → sender m = msg_sender e →
     transact e (GetEncryptedContent messageId) w
       = (inr (RHandle (encryptedContent m)), w) ∧
     transact e (GetEncryptedTimestamp messageId) w
       = (inr (RHandle (encryptedTimestamp m)), w)).
Proof.
  intros m. unfold transact, dispatch, getEncryptedContent, getEncryptedTimestamp,
    mbind, M_bind, sload, require. simpl. fold m.
  split; [|split].
  - intros ->. by split.
  - intros -> Hs. simpl. rewrite bool_decide_eq_false_2 by done. by split.
  - intros -> Hs. simpl. rewrite bool_decide_eq_true_2 by done. by split.
Qed.

(** In the world where Alice owns message 0 and Bob owns message 1: id 5 was
    never assigned, Bob is refused message 0, and Alice reads her handle 11. *)
Lemma C1_gated_reads_witness :
  transact (fhe := stub_fhe) as_bob (GetEncryptedContent 5) world2
    = (inl MessageNotFound, world2) ∧
  transact (fhe := stub_fhe) as_bob (GetEncryptedContent 0) world2
    = (inl NotAuthorized, world2) ∧
  transact (fhe := stub_fhe) as_alice (GetEncryptedContent 0) world2
    = (inr (RHandle 11), world2).
Proof.
  pose proof (C1_gated_reads_check_in_order (fhe := stub_fhe) as_bob world2 5)
    as (Habsent & _ & _).
  pose proof (C1_gated_reads_check_in_order (fhe := stub_fhe) as_bob world2 0)
    as (_ & Hother & _).
  pose proof (C1_gated_reads_check_in_order (fhe := stub_fhe) as_alice world2 0)
    as (_ & _ & Howner).
  split; [|split].
  - apply Habsent. vm_compute. reflexivity.
  - apply Hother; vm_compute; [reflexivity|discriminate].
  - apply Howner; vm_compute; reflexivity.
Defined.

(** ** Submission *)

(** C2: a [submitMessage] call that succeeds allocates the id that
    [_totalMessages] held before the call, stores at that id a message with
    the caller as sender, the block time as creation time and [exists] set,
    appends the id to the caller's list, increments [_totalMessages] by one,
    and emits [MessageSubmitted(id, caller, block time)].  The function has
    no return value: the id is the storage key and the event's first field. *)
Theorem C2_submitMessage_effects `{fhe : FHE} (e : env)
    (ec : externalEuint64) (et : externalEuint32) (p : bytes) (w : world) :
  succeeds e (SubmitMessage ec et p) w = true →
  let w' := (transact e (SubmitMessage ec et p) w).2 in
  let messageId := _totalMessages (registry w) in
  ∃ content timestamp,
    fromExternal64 e ec p = Some content ∧
    fromExternal32 e et p = Some timestamp ∧
    (transact e (SubmitMessage ec et p) w).1 = inr RUnit ∧
    _messages (registry w') =
      <[messageId := {| sender := msg_sender e; encryptedContent := content;
                        encryptedTimestamp := timestamp;
                        createdAt := block_timestamp e; exists_ := true |}]>
        (_messages (registry w)) ∧
    (∀ u, userMessages_at (registry w') u =
          if decide (msg_sender e = u)
          then userMessages_at (registry w) u ++ [messageId]
          else userMessages_at (registry w) u) ∧
    _totalMessages (registry w') = messageId + 1 ∧
    messageId ≠ uint256_max ∧
    events w' = events w ++
                [MessageSubmitted messageId (msg_sender e) (block_timestamp e)].
Proof.
  unfold succeeds, transact, dispatch, mbind, M_bind.
  rewrite submitMessage_unfold.
  destruct (fromExternal64 e ec p) as [content|]; [|discriminate].
  destruct (fromExternal32 e et p) as [timestamp|]; [|discriminate].
  case_decide as Hmax; [discriminate|]. intros _. cbv zeta.
  exists content, timestamp. repeat split; try done.
  intros u. apply userMessages_at_recorded.
Qed.

(** Bob's submission into the world that holds Alice's message 0. *)
Lemma C2_submitMessage_witness :
  ∃ content timestamp,
    fromExternal64 (FHE := stub_fhe) as_bob 21 good_proof = Some content ∧
    fromExternal32 (FHE := stub_fhe) as_bob 22 good_proof = Some timestamp ∧
    (transact (fhe := stub_fhe) as_bob (SubmitMessage 21 22 good_proof) world1).1
      = inr RUnit ∧
    _messages (registry (transact (fhe := stub_fhe) as_bob
                           (SubmitMessage 21 22 good_proof) world1).2) =
      <[_totalMessages (registry world1) :=
          {| sender := bob; encryptedContent := content;
             encryptedTimestamp := timestamp;
             createdAt := block_timestamp as_bob; exists_ := true |}]>
        (_messages (registry world1)) ∧
    (∀ u, userMessages_at (registry (transact (fhe := stub_fhe) as_bob
                                       (SubmitMessage 21 22 good_proof) world1).2) u =
          if decide (bob = u)
          then userMessages_at (registry world1) u ++ [_totalMessages (registry world1)]
          else userMessages_at (registry world1) u) ∧
    _totalMessages (registry (transact (fhe := stub_fhe) as_bob
                                (SubmitMessage 21 22 good_proof) world1).2)
      = _totalMessages (registry world1) + 1 ∧
    _totalMessages (registry world1) ≠ uint256_max ∧
    events (transact (fhe := stub_fhe) as_bob (SubmitMessage 21 22 good_proof) world1).2
      = events world1 ++
        [MessageSubmitted (_totalMessages (registry world1)) bob (block_timestamp as_bob)].
Proof.
  apply (C2_submitMessage_effects (fhe := stub_fhe) as_bob 21 22 good_proof world1).
  vm_compute. reflexivity.
Defined.

(** C6: a [submitMessage] call that succeeds adds to the access-control
    list exactly four pairs: the stored content handle and the stored
    timestamp handle, each for the caller and for the registry itself.
    Every pair that is new after the call is one of those four, so the call
    grants nothing to any other identity. *)
Theorem C6_submitMessage_grants `{fhe : FHE} (e : env)
    (ec : externalEuint64) (et : externalEuint32) (p : bytes) (w : world) :
  succeeds e (SubmitMessage ec et p) w = true →
  let w' := (transact e (SubmitMessage ec et p) w).2 in
  let m := messages_at (registry w') (_totalMessages (registry w)) in
  acl w' = acl w ∪ {[ (encryptedContent m, this e); (encryptedContent m, msg_sender e);
                      (encryptedTimestamp m, this e);
                      (encryptedTimestamp m, msg_sender e) ]} ∧
  (∀ handle account, (handle, account) ∈ acl w' → (handle, account) ∉ acl w →
     (handle = encryptedContent m ∨ handle = encryptedTimestamp m) ∧
     (account = msg_sender e ∨ account = this e)).
Proof.
  unfold succeeds, transact, dispatch, mbind, M_bind.
  rewrite submitMessage_unfold.
  destruct (fromExternal64 e ec p) as [content|]; [|discriminate].
  destruct (fromExternal32 e et p) as [timestamp|]; [|discriminate].
  case_decide as Hmax; [discriminate|]. intros _.
  cbv beta iota zeta delta [snd mret M_ret]. rewrite messages_at_recorded_new. cbn [encryptedContent encryptedTimestamp].
  unfold recorded; cbn [acl]. split.
  { apply set_eq. intros x. rewrite !elem_of_union, !elem_of_singleton. tauto. }
  intros handle account Hin Hnew.
  rewrite !elem_of_union, !elem_of_singleton in Hin.
  destruct Hin as [[= -> ->]|[[= -> ->]|[[= -> ->]|[[= -> ->]|Hold]]]]; tauto.
Qed.

(** Alice's first submission: handles 11 and 12, for Alice and the registry. *)
Lemma C6_submitMessage_grants_witness :
  acl world1 = {[ (11, registry_address); (11, alice);
                  (12, registry_address); (12, alice) ]}.
Proof.
  pose proof (C6_submitMessage_grants (fhe := stub_fhe) as_alice 11 12 good_proof
                (deployed ∅)) as Hgrants.
  destruct Hgrants as [Hacl _]; [vm_compute; reflexivity|].
  etransitivity; [exact Hacl|]. vm_compute. reflexivity.
Defined.

(** ** Ownership check *)

(** C7: [isMessageOwner] never fails; it answers true exactly when a message
    exists at the id and its stored sender is the caller, and it answers
    false for an id that was never assigned. *)
Theorem C7_isMessageOwner_iff `{fhe : FHE} (e : env) (w : world)
    (messageId : uint256) :
  ∃ b : bool,
    transact e (IsMessageOwner messageId) w = (inr (RBool b), w) ∧
    (b = true ↔ exists_ (messages_at (registry w) messageId) = true ∧
                sender (messages_at (registry w) messageId) = msg_sender e) ∧
    (b = true ↔ ∃ m, _messages (registry w) !! messageId = Some m ∧
                     exists_ m = true ∧ sender m = msg_sender e) ∧
    (_messages (registry w) !! messageId = None → b = false).
Proof.
  eexists. split; [reflexivity|].
  rewrite andb_true_iff, bool_decide_eq_true. split; [done|].
  unfold messages_at.
  destruct (_messages (registry w) !! messageId) as [m|]; simpl.
  - split; [|done]. split; [intros [? ?]; by exists m|by intros (? & [= <-] & ? & ?)].
  - split; [|done]. split; [by intros [? ?]|by intros (? & ? & _)].
Qed.

(** Message 0 is Alice's and not Bob's; id 5 was never assigned. *)
Lemma C7_isMessageOwner_witness :
  transact (fhe := stub_fhe) as_alice (IsMessageOwner 0) world2 = (inr (RBool true), world2) ∧
  transact (fhe := stub_fhe) as_bob (IsMessageOwner 0) world2 = (inr (RBool false), world2) ∧
  transact (fhe := stub_fhe) as_bob (IsMessageOwner 5) world2 = (inr (RBool false), world2).
Proof.
  destruct (C7_isMessageOwner_iff (fhe := stub_fhe) as_alice world2 0)
    as (b0 & Hr0 & Hiff0 & _ & _).
  destruct (C7_isMessageOwner_iff (fhe := stub_fhe) as_bob world2 0)
    as (b1 & Hr1 & Hiff1 & _ & _).
  destruct (C7_isMessageOwner_iff (fhe := stub_fhe) as_bob world2 5)
    as (b2 & Hr2 & _ & _ & Hnone).
  assert (b0 = true) as ->.
  { apply Hiff0. vm_compute. by split. }
  assert (b1 = false) as ->.
  { destruct b1; [|reflexivity]. destruct Hiff1 as [Hiff1 _].
    destruct (Hiff1 eq_refl) as [_ Hs]. vm_compute in Hs. discriminate. }
  assert (b2 = false) as ->.
  { apply Hnone. vm_compute. reflexivity. }
  by repeat split.
Defined.

(** ** Failures *)

(** C8: a failing call has no partial effect.  When [submitMessage] fails
    with ProofInvalid, its body stopped in the world it started from (no
    write precedes the import of the two handles), and the transaction
    leaves the world, hence the messages, the per-user lists and the counter,
    exactly as it was.  The gated reads fail only with MessageNotFound or
    NotAuthorized, and they too stop in, and leave, the world unchanged. *)
Theorem C8_failures_leave_world_unchanged `{fhe : FHE} (e : env) (w : world) :
  (∀ ec et p,
     (transact e (SubmitMessage ec et p) w).1 = inl ProofInvalid →
     submitMessage e ec et p w = (inl ProofInvalid, w) ∧
     (transact e (SubmitMessage ec et p) w).2 = w) ∧
  (∀ messageId err,
     (transact e (GetEncryptedContent messageId) w).1 = inl err →
     (err = MessageNotFound ∨ err = NotAuthorized) ∧
     getEncryptedContent e messageId w = (inl err, w) ∧
     (transact e (GetEncryptedContent messageId) w).2 = w) ∧
  (∀ messageId err,
     (transact e (GetEncryptedTimestamp messageId) w).1 = inl err →
     (err = MessageNotFound ∨ err = NotAuthorized) ∧
     getEncryptedTimestamp e messageId w = (inl err, w) ∧
     (transact e (GetEncryptedTimestamp messageId) w).2 = w).
Proof.
  split; [|split].
  - intros ec et p Hfail. split; [|by eapply transact_revert_world].
    revert Hfail. unfold transact, dispatch, mbind, M_bind.
    rewrite submitMessage_unfold.
    destruct (fromExternal64 e ec p) as [content|]; [|done].
    destruct (fromExternal32 e et p) as [timestamp|]; [|done].
    case_decide; discriminate.
  - intros messageId err Hfail.
    split; [|split; [|by eapply transact_revert_world]]; revert Hfail;
      unfold transact, dispatch, getEncryptedContent, mbind, M_bind, sload, require;
      simpl; destruct (exists_ (messages_at (registry w) messageId)); simpl;
      try case_bool_decide; simpl; intros [= <-]; auto.
  - intros messageId err Hfail.
    split; [|split; [|by eapply transact_revert_world]]; revert Hfail;
      unfold transact, dispatch, getEncryptedTimestamp, mbind, M_bind, sload, require;
      simpl; destruct (exists_ (messages_at (registry w) messageId)); simpl;
      try case_bool_decide; simpl; intros [= <-]; auto.
Qed.

(** Bob submits with the empty proof, which the collaborator rejects, and
    then asks for Alice's message 0 and for the unassigned id 5. *)
Lemma C8_failures_witness :
  (transact (fhe := stub_fhe) as_bob (SubmitMessage 31 32 []) world2).2 = world2 ∧
  (transact (fhe := stub_fhe) as_bob (GetEncryptedContent 0) world2).2 = world2 ∧
  (transact (fhe := stub_fhe) as_bob (GetEncryptedTimestamp 5) world2).2 = world2.
Proof.
  destruct (C8_failures_leave_world_unchanged (fhe := stub_fhe) as_bob world2)
    as (Hsubmit & Hcontent & Htimestamp).
  split; [|split].
  - apply (Hsubmit 31 32 []). vm_compute. reflexivity.
  - apply (Hcontent 0 NotAuthorized). vm_compute. reflexivity.
  - apply (Htimestamp 5 MessageNotFound). vm_compute. reflexivity.
Defined.

(** ** Immutability *)

(** C5: in a reachable state, a message that is stored stays as it is under
    every call of the interface and under every further history of calls:
    its five fields are unchanged, and its [exists] flag is set and stays
    set.  No call deletes or rewrites a stored message. *)
Theorem C5_stored_messages_immutable `{fhe : FHE} (w : world)
    (messageId : uint256) (m : Message) :
  reachable w →
  _messages (registry w) !! messageId = Some m →
  exists_ m = true ∧
  (∀ e c, _messages (registry (transact e c w).2) !! messageId = Some m) ∧
  (∀ txs, _messages (registry (run w txs)) !! messageId = Some m ∧
          messages_at (registry (run w txs)) messageId = m).
Proof.
  intros Hreach Hm.
  assert (∀ w0, registry_inv w0 → _messages (registry w0) !! messageId = Some m →
          ∀ e c, _messages (registry (transact e c w0).2) !! messageId = Some m)
    as Hstep.
  { intros w0 Hinv Hm0 e c.
    destruct (transact_world e c w0) as [->|(c' & t' & _ & _ & _ & ->)]; [done|].
    simpl. rewrite lookup_insert_ne; [done|].
    intros <-. pose proof (proj1 (inv_dom _ Hinv _) (mk_is_Some _ _ Hm0)). lia. }
  split; [by eapply inv_exists; [apply reachable_inv|]|].
  split; [by apply Hstep; [apply reachable_inv|]|].
  intros txs.
  enough (_messages (registry (run w txs)) !! messageId = Some m) as Hrun.
  { split; [done|]. unfold messages_at. by rewrite Hrun. }
  pose proof (reachable_inv _ Hreach) as Hinv. clear Hreach.
  revert w Hinv Hm. induction txs as [|[e c] txs IH]; intros w Hinv Hm; [done|].
  simpl. apply IH; [by apply transact_inv|by apply Hstep].
Qed.

(** Alice's message 0 after Bob's later submission. *)
Lemma C5_stored_messages_witness :
  _messages (registry world2) !! 0 =
  Some {| sender := alice; encryptedContent := 11; encryptedTimestamp := 12;
          createdAt := 1700000000; exists_ := true |}.
Proof.
  pose proof (reachable_transact (fhe := stub_fhe) (deployed ∅) as_alice
                (SubmitMessage 11 12 good_proof) (reachable_deployed ∅)) as Hreach.
  destruct (C5_stored_messages_immutable (fhe := stub_fhe) world1 0
              {| sender := alice; encryptedContent := 11; encryptedTimestamp := 12;
                 createdAt := 1700000000; exists_ := true |} Hreach)
    as (_ & Hcall & _); [vm_compute; reflexivity|].
  exact (Hcall as_bob (SubmitMessage 21 22 good_proof)).
Defined.

(** ** Histories *)

Section Histories.
Context `{fhe : FHE}.

Lemma run_app w txs1 txs2 : run w (txs1 ++ txs2) = run (run w txs1) txs2.
Proof. unfold run. by rewrite foldl_app. Qed.

Lemma all_succeed_app w txs1 txs2 :
  all_succeed w (txs1 ++ txs2) = all_succeed w txs1 && all_succeed (run w txs1) txs2.
Proof.
  revert w. induction txs1 as [|[e c] txs1 IH]; intros w; [reflexivity|].
  simpl. by rewrite IH, andb_assoc.
Qed.

Lemma all_succeed_take w txs k :
  all_succeed w txs = true → all_succeed w (take k txs) = true.
Proof.
  rewrite <- (take_drop k txs) at 1. rewrite all_succeed_app.
  by intros [? _]%andb_true_iff.
Qed.

Lemma is_submitMessage_not_view c : is_submitMessage c = true → is_view c = false.
Proof. by destruct c. Qed.

(** A history of submissions that all go through advances the counter by
    its length. *)
Lemma total_after_submissions w txs :
  Forall (λ t, is_view t.2 = false) txs →
  all_succeed w txs = true →
  _totalMessages (registry (run w txs)) =
  _totalMessages (registry w) + N.of_nat (length txs).
Proof.
  intros Hsub. revert w. induction Hsub as [|[e c] txs Hc _ IH]; intros w Hok.
  - simpl. lia.
  - simpl in *. apply andb_true_iff in Hok as [Hok1 Hok2].
    rewrite IH by done.
    destruct (transact_submission e c w) as (c' & t' & _ & ->).
    { by rewrite Hc, Hok1. }
    simpl. lia.
Qed.

Lemma event_ids_inv w :
  registry_inv w → event_id <$> events w = ids_below (_totalMessages (registry w)).
Proof.
  intros Hinv. rewrite (inv_events _ Hinv), <- list_fmap_compose.
  rewrite <- (list_fmap_id (ids_below _)) at 2. by apply fmap_ext_elem.
Qed.

Lemma length_userMessages_run u w txs :
  length (userMessages_at (registry (run w txs)) u) =
  (length (userMessages_at (registry w) u) + submissions_by u w txs)%nat.
Proof.
  revert w. induction txs as [|[e c] txs IH]; intros w; [simpl; lia|].
  simpl. rewrite IH. clear IH.
  destruct (negb (is_view c) && succeeds e c w) eqn:Hsub.
  - destruct (transact_submission e c w Hsub) as (c' & t' & _ & ->). simpl snd.
    rewrite userMessages_at_recorded. simpl.
    case_decide; [rewrite bool_decide_eq_true_2 by done
                 |rewrite bool_decide_eq_false_2 by done].
    + rewrite length_app. simpl. lia.
    + lia.
  - rewrite (transact_no_submission e c w Hsub). simpl. lia.
Qed.

End Histories.

(** C3: after a history of N [submitMessage] calls that all succeed, run
    from the freshly deployed registry, [_totalMessages] is N and the ids
    carried by the creation events are 0, 1, ..., N-1 in call order: the
    k-th call (counting from 0) finds the counter at k and emits the event
    with id k.  After every prefix of the history the counter equals the
    number of stored messages, and the stored ids are exactly those below
    the counter. *)
Theorem C3_ids_sequential `{fhe : FHE} (a : gset (N * N))
    (txs : list (env * call)) :
  Forall (λ t, is_submitMessage t.2 = true) txs →
  all_succeed (deployed a) txs = true →
  _totalMessages (registry (run (deployed a) txs)) = N.of_nat (length txs) ∧
  event_id <$> events (run (deployed a) txs) = ids_below (N.of_nat (length txs)) ∧
  (∀ k e c, txs !! k = Some (e, c) →
     _totalMessages (registry (run (deployed a) (take k txs))) = N.of_nat k ∧
     events (run (deployed a) (take (S k) txs)) =
       events (run (deployed a) (take k txs)) ++
       [MessageSubmitted (N.of_nat k) (msg_sender e) (block_timestamp e)]) ∧
  (∀ k, size (_messages (registry (run (deployed a) (take k txs)))) =
        N.to_nat (_totalMessages (registry (run (deployed a) (take k txs)))) ∧
        ∀ messageId,
          is_Some (_messages (registry (run (deployed a) (take k txs))) !! messageId) ↔
          messageId < _totalMessages (registry (run (deployed a) (take k txs)))).
Proof.
  intros Hsub Hok.
  assert (Forall (λ t : env * call, is_view t.2 = false) txs) as Hnv.
  { eapply Forall_impl; [exact Hsub|]. intros t. apply is_submitMessage_not_view. }
  assert (∀ k, (k ≤ length txs)%nat →
            _totalMessages (registry (run (deployed a) (take k txs))) = N.of_nat k)
    as Hprefix.
  { intros k Hk. rewrite total_after_submissions.
    - rewrite length_take. simpl. lia.
    - by apply Forall_take.
    - by apply all_succeed_take. }
  split; [|split; [|split]].
  - rewrite <- (firstn_all txs) at 1. by apply Hprefix.
  - rewrite event_ids_inv by (apply reachable_inv, run_reachable).
    f_equal. rewrite <- (firstn_all txs) at 1. by apply Hprefix.
  - intros k e c Hk. pose proof (lookup_lt_Some _ _ _ Hk) as Hlt.
    split; [apply Hprefix; lia|].
    rewrite (take_S_r _ _ _ Hk), run_app. simpl.
    destruct (transact_submission e c (run (deployed a) (take k txs)))
      as (c' & t' & _ & ->).
    + apply andb_true_iff. split.
      * rewrite Forall_lookup in Hnv. pose proof (Hnv k (e, c) Hk) as Hc.
        simpl in Hc. by rewrite Hc.
      * pose proof (all_succeed_take _ _ (S k) Hok) as Hok'.
        rewrite (take_S_r _ _ _ Hk), all_succeed_app in Hok'.
        apply andb_true_iff in Hok' as [_ Hok']. simpl in Hok'.
        by apply andb_true_iff in Hok' as [? _].
    + simpl. rewrite Hprefix by lia. reflexivity.
  - intros k. pose proof (reachable_inv _ (run_reachable a (take k txs))) as Hinv.
    split; [apply (inv_size _ Hinv)|apply (inv_dom _ Hinv)].
Qed.

(** Alice's and Bob's submissions get ids 0 and 1. *)
Lemma C3_ids_sequential_witness :
  _totalMessages (registry world2) = 2 ∧
  event_id <$> events world2 = [0; 1].
Proof.
  destruct (C3_ids_sequential (fhe := stub_fhe) ∅ two_submissions)
    as (Htotal & Hids & _).
  - repeat constructor.
  - vm_compute. reflexivity.
  - split; [exact Htotal|exact Hids].
Defined.

(** ** The per-user index *)

(** C4: in every reachable state, here the state after any history of calls
    on the deployed registry, the list kept for an identity [u] holds
    exactly the ids of the stored messages whose sender is [u], in
    increasing id order, which is submission order.  [getUserMessages]
    called by [u] returns that list as it is, [getUserMessageCount(u)]
    returns its length, and that length is the number of submissions by [u]
    that went through (0 when there were none). *)
Theorem C4_user_index `{fhe : FHE} (a : gset (N * N)) (txs : list (env * call))
    (u : address) :
  let w := run (deployed a) txs in
  let ids := userMessages_at (registry w) u in
  ids = filter (λ messageId, sender (messages_at (registry w) messageId) = u)
               (ids_below (_totalMessages (registry w))) ∧
  (∀ messageId, messageId ∈ ids ↔
     ∃ m, _messages (registry w) !! messageId = Some m ∧ sender m = u) ∧
  (∀ e, msg_sender e = u → transact e GetUserMessages w = (inr (RIds ids), w)) ∧
  (∀ e, transact e (GetUserMessageCount u) w = (inr (RUint (N.of_nat (length ids))), w)) ∧
  length ids = submissions_by u (deployed a) txs.
Proof.
  intros w ids. pose proof (reachable_inv _ (run_reachable a txs)) as Hinv.
  fold w in Hinv. split; [apply (inv_index _ Hinv)|]. split; [|split; [|split]].
  - intros messageId. unfold ids. rewrite (inv_index _ Hinv), list_elem_of_filter.
    rewrite elem_of_ids_below, <- (inv_dom _ Hinv). unfold messages_at. split.
    + intros [Hs [m Hm]]. rewrite Hm in Hs. by exists m.
    + intros (m & Hm & Hs). rewrite Hm. split; [done|by exists m].
  - intros e <-. reflexivity.
  - intros e. reflexivity.
  - unfold ids, w. rewrite length_userMessages_run. reflexivity.
Qed.

(** Alice's list is [0], Bob's is [1], and an identity that never submitted
    has the empty list. *)
Lemma C4_user_index_witness :
  transact (fhe := stub_fhe) as_alice GetUserMessages world2 = (inr (RIds [0]), world2) ∧
  transact (fhe := stub_fhe) as_alice (GetUserMessageCount bob) world2
    = (inr (RUint 1), world2) ∧
  length (userMessages_at (registry world2) 7) = 0%nat.
Proof.
  destruct (C4_user_index (fhe := stub_fhe) ∅ two_submissions alice)
    as (_ & _ & Hlist & _ & _).
  destruct (C4_user_index (fhe := stub_fhe) ∅ two_submissions bob)
    as (_ & _ & _ & Hcount & _).
  destruct (C4_user_index (fhe := stub_fhe) ∅ two_submissions 7)
    as (_ & _ & _ & _ & Hnone).
  split; [|split].
  - exact (Hlist as_alice eq_refl).
  - exact (Hcount as_alice).
  - exact Hnone.
Defined.

(** ** The interface *)

(** C9 as stated fails: [submitMessageMock] is an entry point that is not
    [submitMessage] and is no read; it stores a message even next to a
    collaborator that rejects every proof. *)
Lemma C9_counterexample :
  ¬ (∀ (fhe : FHE) (e : env) (c : call) (w : world),
       call_name c = "submitMessage" ∨ (transact e c w).2 = w).
Proof.
  intros Hclaim.
  destruct (Hclaim rejecting_fhe as_alice (SubmitMessageMock 7 9) (deployed ∅))
    as [Hname|Hsame]; [discriminate|].
  apply (f_equal (λ w, _totalMessages (registry w))) in Hsame.
  vm_compute in Hsame. discriminate.
Qed.

(** C9 (amended): the public interface has ten entry points.  Two of them
    write: [submitMessage] and the test-only [submitMessageMock]; a call of
    either that succeeds advances the counter by one, so it changes the
    state.  The other eight are reads that leave the world as it is,
    whether they succeed or fail: the seven view functions declared in the
    contract, [getUserMessages], [getUserMessageCount], [getMessageMetadata],
    [getEncryptedContent], [getEncryptedTimestamp], [getTotalMessages] and
    [isMessageOwner], and [confidentialProtocolId], which the contract
    inherits from [ZamaEthereumConfig] and which returns the library's
    protocol id.  There are no other entry points. *)
Theorem C9_interface `{fhe : FHE} (e : env) (c : call) (w : world) :
  call_name c ∈ writing_functions ++ view_functions ∧
  (is_view c = true ↔ call_name c ∈ view_functions) ∧
  (is_view c = false ↔ call_name c ∈ writing_functions) ∧
  (call_name c ∈ view_functions → (transact e c w).2 = w) ∧
  (call_name c ∈ writing_functions → succeeds e c w = true →
     _totalMessages (registry (transact e c w).2) = _totalMessages (registry w) + 1 ∧
     (transact e c w).2 ≠ w) ∧
  (call_name c = "confidentialProtocolId" →
     transact e c w = (inr (RUint (getConfidentialProtocolId e)), w)) ∧
  length (writing_functions ++ view_functions) = 10%nat ∧
  NoDup (writing_functions ++ view_functions) ∧
  Forall (λ name, ∃ c', call_name c' = name) (writing_functions ++ view_functions).
Proof.
  assert (is_view c = true ↔ call_name c ∈ view_functions) as Hview.
  { unfold view_functions. rewrite !elem_of_cons, elem_of_nil.
    destruct c; simpl; split; try done; intuition discriminate. }
  assert (is_view c = false ↔ call_name c ∈ writing_functions) as Hwrite.
  { unfold writing_functions. rewrite !elem_of_cons, elem_of_nil.
    destruct c; simpl; split; try done; intuition discriminate. }
  split; [|split; [done|split; [done|split; [|split; [|split; [|split; [|split]]]]]]].
  - rewrite elem_of_app, <- Hview, <- Hwrite. destruct (is_view c); auto.
  - intros Hc%Hview. apply transact_no_submission. by rewrite Hc.
  - intros Hc%Hwrite Hok.
    destruct (transact_submission e c w) as (content & timestamp & _ & ->);
      [by rewrite Hc, Hok|].
    split; [reflexivity|].
    intros Hsame. apply (f_equal (λ w0, _totalMessages (registry w0))) in Hsame.
    simpl in Hsame. lia.
  - by destruct c.
  - reflexivity.
  - apply NoDup_ListNoDup. repeat constructor; simpl; intuition discriminate.
  - unfold writing_functions, view_functions. repeat constructor.
    + by exists (SubmitMessage 0 0 []).
    + by exists (SubmitMessageMock 0 0).
    + by exists GetUserMessages.
    + by exists (GetUserMessageCount 0).
    + by exists (GetMessageMetadata 0).
    + by exists (GetEncryptedContent 0).
    + by exists (GetEncryptedTimestamp 0).
    + by exists GetTotalMessages.
    + by exists (IsMessageOwner 0).
    + by exists ConfidentialProtocolId.
Qed.

(** Next to a collaborator that rejects every proof, [submitMessageMock]
    still changes the freshly deployed registry, and the inherited read
    returns the protocol id and changes nothing. *)
Lemma C9_interface_witness :
  (transact (fhe := rejecting_fhe) as_alice (SubmitMessageMock 7 9) (deployed ∅)).2
    ≠ deployed ∅ ∧
  transact (fhe := rejecting_fhe) as_alice ConfidentialProtocolId (deployed ∅)
    = (inr (RUint 10001), deployed ∅).
Proof.
  destruct (C9_interface (fhe := rejecting_fhe) as_alice (SubmitMessageMock 7 9)
              (deployed ∅)) as (_ & _ & _ & _ & Hwrites & _).
  destruct (C9_interface (fhe := rejecting_fhe) as_alice ConfidentialProtocolId
              (deployed ∅)) as (_ & _ & _ & _ & _ & Hid & _).
  split.
  - apply Hwrites; [|vm_compute; reflexivity].
    apply list_elem_of_further, list_elem_of_here.
  - apply Hid. reflexivity.
Defined.

(** ** The mock submission *)

(** C10: [submitMessageMock] does the bookkeeping of [submitMessage] with
    the handles that wrap its two plaintexts.  It allocates the id held by
    [_totalMessages], stores the message with the caller as sender, the
    block time and [exists] set, appends the id to the caller's list,
    increments the counter, grants both handles to the registry and to the
    caller, and emits the same creation event; it fails only when the
    counter cannot be incremented, never on a proof.  Whenever the
    collaborator imports a submission's external handles as those same two
    handles, the two calls have the same result and the same final world.
    The mock call preserves the registry invariant. *)
Theorem C10_mock_same_bookkeeping `{fhe : FHE} (e : env)
    (content : uint64) (timestamp : uint32) (w : world) :
  let mock := transact e (SubmitMessageMock content timestamp) w in
  let messageId := _totalMessages (registry w) in
  (∀ ec et p,
     fromExternal64 e ec p = Some (asEuint64 content) →
     fromExternal32 e et p = Some (asEuint32 timestamp) →
     transact e (SubmitMessage ec et p) w = mock) ∧
  (messageId ≠ uint256_max →
     mock.1 = inr RUnit ∧
     _messages (registry mock.2) =
       <[messageId := {| sender := msg_sender e;
                         encryptedContent := asEuint64 content;
                         encryptedTimestamp := asEuint32 timestamp;
                         createdAt := block_timestamp e; exists_ := true |}]>
         (_messages (registry w)) ∧
     (∀ u, userMessages_at (registry mock.2) u =
           if decide (msg_sender e = u)
           then userMessages_at (registry w) u ++ [messageId]
           else userMessages_at (registry w) u) ∧
     _totalMessages (registry mock.2) = messageId + 1 ∧
     acl mock.2 = acl w ∪ {[ (asEuint64 content, this e);
                             (asEuint64 content, msg_sender e);
                             (asEuint32 timestamp, this e);
                             (asEuint32 timestamp, msg_sender e) ]} ∧
     events mock.2 = events w ++
                     [MessageSubmitted messageId (msg_sender e) (block_timestamp e)]) ∧
  (messageId = uint256_max → mock = (inl (Panic 17), w)) ∧
  (registry_inv w → registry_inv mock.2).
Proof.
  intros mock messageId. split; [|split; [|split]].
  - intros ec et p Hc Ht. unfold mock, transact, dispatch, mbind, M_bind.
    by rewrite submitMessage_unfold, submitMessageMock_unfold, Hc, Ht.
  - intros Hmax. unfold mock, transact, dispatch, mbind, M_bind.
    rewrite submitMessageMock_unfold. fold messageId.
    destruct (decide (messageId = uint256_max)); [done|].
    cbv beta iota zeta delta [fst snd mret M_ret].
    repeat split; try done.
    + intros u. apply userMessages_at_recorded.
    + unfold recorded; cbn [acl]. apply set_eq. intros x.
      rewrite !elem_of_union, !elem_of_singleton. tauto.
  - intros Hmax. unfold mock, transact, dispatch, mbind, M_bind.
    rewrite submitMessageMock_unfold. fold messageId.
    by destruct (decide (messageId = uint256_max)).
  - apply transact_inv.
Qed.

(** Bob's mock submission of the plaintexts 5 and 6 into the world that
    holds Alice's message 0, next to his submission of the handles 1005 and
    1006 that wrap them. *)
Lemma C10_mock_witness :
  transact (fhe := stub_fhe) as_bob (SubmitMessage 1005 1006 good_proof) world1
    = transact (fhe := stub_fhe) as_bob (SubmitMessageMock 5 6) world1 ∧
  _totalMessages (registry (transact (fhe := stub_fhe) as_bob
                              (SubmitMessageMock 5 6) world1).2) = 2.
Proof.
  destruct (C10_mock_same_bookkeeping (fhe := stub_fhe) as_bob 5 6 world1)
    as (Hsame & Heffects & _ & _).
  split.
  - apply (Hsame 1005 1006 good_proof); vm_compute; reflexivity.
  - destruct Heffects as (_ & _ & _ & Htotal & _); [vm_compute; discriminate|].
    exact Htotal.
Defined.

(** ** Metadata and the counter *)

Section Reads.
Context `{fhe : FHE}.

Lemma transact_getEncryptedContent e w messageId :
  transact e (GetEncryptedContent messageId) w =
  (let m := messages_at (registry w) messageId in
   if exists_ m
   then if bool_decide (sender m = msg_sender e)
        then inr (RHandle (encryptedContent m)) else inl NotAuthorized
   else inl MessageNotFound, w).
Proof.
  unfold transact, dispatch, getEncryptedContent, mbind, M_bind, sload, require.
  simpl. destruct (exists_ (messages_at (registry w) messageId)); [|reflexivity].
  simpl. by case_bool_decide.
Qed.

Lemma transact_getEncryptedTimestamp e w messageId :
  transact e (GetEncryptedTimestamp messageId) w =
  (let m := messages_at (registry w) messageId in
   if exists_ m
   then if bool_decide (sender m = msg_sender e)
        then inr (RHandle (encryptedTimestamp m)) else inl NotAuthorized
   else inl MessageNotFound, w).
Proof.
  unfold transact, dispatch, getEncryptedTimestamp, mbind, M_bind, sload, require.
  simpl. destruct (exists_ (messages_at (registry w) messageId)); [|reflexivity].
  simpl. by case_bool_decide.
Qed.

(** What the four per-message reads answer depends only on the stored
    record and the caller. *)
Lemma message_reads_ext e w1 w2 messageId c :
  c ∈ [GetMessageMetadata messageId; GetEncryptedContent messageId;
       GetEncryptedTimestamp messageId; IsMessageOwner messageId] →
  messages_at (registry w1) messageId = messages_at (registry w2) messageId →
  (transact e c w1).1 = (transact e c w2).1.
Proof.
  intros Hc Hm. repeat (apply elem_of_cons in Hc as [->|Hc]);
    [| | | |by apply elem_of_nil in Hc].
  - unfold transact, dispatch, getMessageMetadata, mbind, M_bind, sload. simpl.
    by rewrite Hm.
  - rewrite !transact_getEncryptedContent. simpl. by rewrite Hm.
  - rewrite !transact_getEncryptedTimestamp. simpl. by rewrite Hm.
  - unfold transact, dispatch, isMessageOwner, mbind, M_bind, sload. simpl.
    by rewrite Hm.
Qed.

Lemma transact_messages_at_old e c w messageId :
  registry_inv w → messageId < _totalMessages (registry w) →
  messages_at (registry (transact e c w).2) messageId =
  messages_at (registry w) messageId.
Proof.
  intros Hinv Hid.
  destruct (transact_world e c w) as [->|(c' & t' & _ & _ & _ & ->)]; [done|].
  apply messages_at_recorded_old. lia.
Qed.

Lemma messages_at_stored w messageId :
  registry_inv w → messageId < _totalMessages (registry w) →
  _messages (registry w) !! messageId = Some (messages_at (registry w) messageId) ∧
  exists_ (messages_at (registry w) messageId) = true.
Proof.
  intros Hinv Hid. apply (inv_dom _ Hinv) in Hid as [m Hm].
  unfold messages_at. rewrite Hm. split; [done|]. by eapply inv_exists.
Qed.

Lemma messages_at_absent w messageId :
  registry_inv w → ¬ messageId < _totalMessages (registry w) →
  messages_at (registry w) messageId = zero_Message.
Proof.
  intros Hinv Hid. unfold messages_at.
  destruct (_messages (registry w) !! messageId) as [m|] eqn:Hm; [|done].
  exfalso. apply Hid, (inv_dom _ Hinv). eauto.
Qed.

Lemma total_after_run w txs :
  _totalMessages (registry (run w txs)) =
  _totalMessages (registry w) + N.of_nat (submissions w txs).
Proof.
  revert w. induction txs as [|[e c] txs IH]; intros w; [simpl; lia|].
  simpl. rewrite IH. clear IH.
  destruct (negb (is_view c) && succeeds e c w) eqn:Hsub.
  - destruct (transact_submission e c w Hsub) as (c' & t' & _ & ->). simpl. lia.
  - rewrite (transact_no_submission e c w Hsub). lia.
Qed.

Lemma submissions_le_length w txs : (submissions w txs ≤ length txs)%nat.
Proof.
  revert w. induction txs as [|[e c] txs IH]; intros w; [done|].
  simpl. specialize (IH (transact e c w).2).
  destruct (negb (is_view c) && succeeds e c w); lia.
Qed.

End Reads.

Lemma world2_reachable : reachable (fhe := stub_fhe) world2.
Proof. apply run_reachable. Qed.

(** X1: [getMessageMetadata] never fails.  In a reachable state the
    [exists] flag it returns is set exactly for the ids below
    [_totalMessages]; for such an id it returns the stored sender and
    creation time, and for any other id it returns the zero address and
    time 0. *)
Theorem X1_getMessageMetadata_reachable `{fhe : FHE} (w : world) (e : env)
    (messageId : uint256) :
  reachable w →
  ∃ s t ex,
    transact e (GetMessageMetadata messageId) w = (inr (RMetadata s t ex), w) ∧
    (ex = true ↔ messageId < _totalMessages (registry w)) ∧
    (ex = true →
       ∃ m, _messages (registry w) !! messageId = Some m ∧
            s = sender m ∧ t = createdAt m) ∧
    (ex = false → s = 0 ∧ t = 0).
Proof.
  intros Hinv%reachable_inv.
  exists (sender (messages_at (registry w) messageId)),
         (createdAt (messages_at (registry w) messageId)),
         (exists_ (messages_at (registry w) messageId)).
  split; [reflexivity|].
  destruct (decide (messageId < _totalMessages (registry w))) as [Hid|Hid].
  - destruct (messages_at_stored w messageId Hinv Hid) as [Hm ->].
    repeat split; try done. intros _. eauto.
  - rewrite (messages_at_absent w messageId Hinv Hid). simpl.
    repeat split; done.
Qed.

(** Message 1 is Bob's, created at his block time; id 2 reads as absent. *)
Lemma X1_getMessageMetadata_witness :
  transact (fhe := stub_fhe) as_alice (GetMessageMetadata 1) world2
    = (inr (RMetadata bob 1700000012 true), world2) ∧
  transact (fhe := stub_fhe) as_alice (GetMessageMetadata 2) world2
    = (inr (RMetadata 0 0 false), world2).
Proof.
  pose proof world2_reachable as Hreach.
  destruct (X1_getMessageMetadata_reachable (fhe := stub_fhe) world2 as_alice 1 Hreach)
    as (s1 & t1 & ex1 & Hr1 & _).
  destruct (X1_getMessageMetadata_reachable (fhe := stub_fhe) world2 as_alice 2 Hreach)
    as (s2 & t2 & ex2 & Hr2 & _).
  pose proof (f_equal fst Hr1) as Hc1. vm_compute in Hc1. injection Hc1 as <- <- <-.
  pose proof (f_equal fst Hr2) as Hc2. vm_compute in Hc2. injection Hc2 as <- <- <-.
  split; [exact Hr1|exact Hr2].
Defined.

(** X2: after any history of calls on the deployed registry, with reads,
    failed calls and submissions of both kinds interleaved,
    [getTotalMessages] returns the number of submissions that went through;
    that number is at most the length of the history, and no call lowers the
    counter. *)
Theorem X2_getTotalMessages_counts `{fhe : FHE} (a : gset (N * N))
    (txs : list (env * call)) (e : env) :
  transact e GetTotalMessages (run (deployed a) txs)
    = (inr (RUint (N.of_nat (submissions (deployed a) txs))), run (deployed a) txs) ∧
  (submissions (deployed a) txs ≤ length txs)%nat ∧
  (∀ e' c, _totalMessages (registry (run (deployed a) txs)) ≤
           _totalMessages (registry (transact e' c (run (deployed a) txs)).2)).
Proof.
  split; [|split].
  - unfold transact, dispatch, getTotalMessages, mbind, M_bind, sload. simpl.
    by rewrite total_after_run.
  - apply submissions_le_length.
  - intros e' c. pose proof (total_after_run (run (deployed a) txs) [(e', c)]) as Hstep.
    simpl in Hstep. rewrite Hstep. lia.
Qed.

(** ** Ownership and the reads *)

(** X3: [isMessageOwner] predicts the gated reads.  In every world and for
    every caller and id, [getEncryptedContent] and [getEncryptedTimestamp]
    succeed exactly when [isMessageOwner] answers true, and then they return
    the two stored handles. *)
Theorem X3_isMessageOwner_predicts_reads `{fhe : FHE} (e : env) (w : world)
    (messageId : uint256) :
  ∃ b : bool,
    (transact e (IsMessageOwner messageId) w).1 = inr (RBool b) ∧
    succeeds e (GetEncryptedContent messageId) w = b ∧
    succeeds e (GetEncryptedTimestamp messageId) w = b ∧
    (b = true →
       (transact e (GetEncryptedContent messageId) w).1 =
         inr (RHandle (encryptedContent (messages_at (registry w) messageId))) ∧
       (transact e (GetEncryptedTimestamp messageId) w).1 =
         inr (RHandle (encryptedTimestamp (messages_at (registry w) messageId)))).
Proof.
  eexists. split; [reflexivity|]. unfold succeeds.
  rewrite transact_getEncryptedContent, transact_getEncryptedTimestamp. simpl.
  destruct (exists_ (messages_at (registry w) messageId)); simpl; [|by repeat split].
  case_bool_decide; by repeat split.
Qed.

(** Alice passes the check and both reads on her message 0. *)
Lemma X3_isMessageOwner_predicts_witness :
  (transact (fhe := stub_fhe) as_alice (GetEncryptedContent 0) world2).1
    = inr (RHandle 11) ∧
  (transact (fhe := stub_fhe) as_alice (GetEncryptedTimestamp 0) world2).1
    = inr (RHandle 12).
Proof.
  destruct (X3_isMessageOwner_predicts_reads (fhe := stub_fhe) as_alice world2 0)
    as (b & Hb & _ & _ & Hreads).
  vm_compute in Hb. injection Hb as <-. exact (Hreads eq_refl).
Defined.

(** X4: in a reachable state every id that [getUserMessages] lists for a
    caller is an assigned id whose metadata names the caller as sender with
    [exists] set, for which [isMessageOwner] answers true and for which both
    gated reads return the stored handles. *)
Theorem X4_listed_ids_are_readable `{fhe : FHE} (w : world) (e : env)
    (messageId : uint256) :
  reachable w →
  messageId ∈ userMessages_at (registry w) (msg_sender e) →
  let m := messages_at (registry w) messageId in
  messageId < _totalMessages (registry w) ∧
  transact e (GetMessageMetadata messageId) w
    = (inr (RMetadata (msg_sender e) (createdAt m) true), w) ∧
  transact e (IsMessageOwner messageId) w = (inr (RBool true), w) ∧
  transact e (GetEncryptedContent messageId) w
    = (inr (RHandle (encryptedContent m)), w) ∧
  transact e (GetEncryptedTimestamp messageId) w
    = (inr (RHandle (encryptedTimestamp m)), w).
Proof.
  intros Hinv%reachable_inv Hin m.
  rewrite (inv_index _ Hinv), list_elem_of_filter, elem_of_ids_below in Hin.
  destruct Hin as [Hs Hid]. fold m in Hs.
  destruct (messages_at_stored w messageId Hinv Hid) as [_ Hex]. fold m in Hex.
  split; [done|].
  rewrite transact_getEncryptedContent, transact_getEncryptedTimestamp.
  unfold transact, dispatch, getMessageMetadata, isMessageOwner, mbind, M_bind, sload.
  simpl. fold m. rewrite Hex, Hs. simpl. rewrite bool_decide_eq_true_2 by done.
  by repeat split.
Qed.

(** Bob's list holds id 1, and Bob reads message 1. *)
Lemma X4_listed_ids_witness :
  transact (fhe := stub_fhe) as_bob (GetEncryptedContent 1) world2
    = (inr (RHandle 21), world2).
Proof.
  destruct (X4_listed_ids_are_readable (fhe := stub_fhe) world2 as_bob 1
              world2_reachable) as (_ & _ & _ & Hcontent & _).
  - vm_compute. apply list_elem_of_here.
  - exact Hcontent.
Defined.

(** ** The per-user lists as a partition *)

Section Lists.
Context `{fhe : FHE}.

Lemma StronglySorted_filter_lt (P : N → Prop) `{!∀ x, Decision (P x)} (l : list N) :
  StronglySorted N.lt l → StronglySorted N.lt (filter P l).
Proof.
  induction 1 as [|x l Hl IH Hx]; [constructor|].
  rewrite filter_cons. destruct (decide (P x)); [|done].
  constructor; [done|].
  apply Forall_forall. intros y [_ Hy]%list_elem_of_filter.
  rewrite Forall_forall in Hx. by apply Hx.
Qed.

Lemma StronglySorted_ids_below n : StronglySorted N.lt (ids_below n).
Proof.
  induction n as [|n IH] using N.peano_ind; [constructor|].
  rewrite <- N.add_1_r, ids_below_succ.
  apply StronglySorted_app_2; [|done|repeat constructor].
  intros x y Hx%elem_of_ids_below Hy%list_elem_of_singleton. lia.
Qed.

Lemma StronglySorted_lt_NoDup (l : list N) : StronglySorted N.lt l → NoDup l.
Proof.
  induction 1 as [|x l Hl IH Hx]; constructor; [|done].
  intros Hin. rewrite Forall_forall in Hx. specialize (Hx x Hin). lia.
Qed.

End Lists.

(** X5: in a reachable state the per-user lists partition the assigned ids.
    Each list is strictly increasing, so it has no duplicates; no id is in
    the lists of two different identities; every listed id is below
    [_totalMessages]; and every id below [_totalMessages] is in the list of
    its stored sender. *)
Theorem X5_user_lists_partition `{fhe : FHE} (w : world) :
  reachable w →
  (∀ u, StronglySorted N.lt (userMessages_at (registry w) u) ∧
        NoDup (userMessages_at (registry w) u)) ∧
  (∀ u v messageId,
     messageId ∈ userMessages_at (registry w) u →
     messageId ∈ userMessages_at (registry w) v → u = v) ∧
  (∀ u messageId,
     messageId ∈ userMessages_at (registry w) u →
     messageId < _totalMessages (registry w)) ∧
  (∀ messageId,
     messageId < _totalMessages (registry w) →
     messageId ∈ userMessages_at (registry w)
                   (sender (messages_at (registry w) messageId))).
Proof.
  intros Hinv%reachable_inv. split; [|split; [|split]].
  - intros u.
    assert (StronglySorted N.lt (userMessages_at (registry w) u)) as Hsorted.
    { rewrite (inv_index _ Hinv).
      apply StronglySorted_filter_lt, StronglySorted_ids_below. }
    split; [done|by apply StronglySorted_lt_NoDup].
  - intros u v messageId. rewrite !(inv_index _ Hinv), !list_elem_of_filter.
    by intros [<- _] [<- _].
  - intros u messageId. rewrite (inv_index _ Hinv), list_elem_of_filter.
    intros [_ Hid]. by apply elem_of_ids_below.
  - intros messageId Hid. rewrite (inv_index _ Hinv), list_elem_of_filter.
    split; [done|by apply elem_of_ids_below].
Qed.

(** Id 1 is below the counter, so it is in the list of its sender, Bob. *)
Lemma X5_user_lists_witness : 1 ∈ userMessages_at (registry world2) bob.
Proof.
  destruct (X5_user_lists_partition (fhe := stub_fhe) world2 world2_reachable)
    as (_ & _ & _ & Hcover).
  apply (Hcover 1). vm_compute. reflexivity.
Defined.

(** X6: a call does not disturb what others see.  In a reachable state,
    whatever call is applied, by whomever and whether or not it succeeds,
    the metadata, the ownership answer and both gated reads of every id
    assigned before the call give every caller the same result as before,
    and the list and the count of every identity other than the call's
    sender are unchanged. *)
Theorem X6_calls_do_not_disturb_others `{fhe : FHE} (w : world) (e : env) (c : call) :
  reachable w →
  let w' := (transact e c w).2 in
  (∀ messageId e' r,
     messageId < _totalMessages (registry w) →
     r ∈ [GetMessageMetadata messageId; GetEncryptedContent messageId;
          GetEncryptedTimestamp messageId; IsMessageOwner messageId] →
     (transact e' r w').1 = (transact e' r w).1) ∧
  (∀ u e', u ≠ msg_sender e →
     userMessages_at (registry w') u = userMessages_at (registry w) u ∧
     (transact e' (GetUserMessageCount u) w').1 =
     (transact e' (GetUserMessageCount u) w).1).
Proof.
  intros Hinv%reachable_inv w'. split.
  - intros messageId e' r Hid Hr. apply (message_reads_ext _ _ _ messageId); [done|].
    by apply transact_messages_at_old.
  - intros u e' Hu.
    assert (userMessages_at (registry w') u = userMessages_at (registry w) u) as Hl.
    { unfold w'. destruct (transact_world e c w) as [->|(c' & t' & _ & _ & _ & ->)];
        [done|].
      rewrite userMessages_at_recorded. by rewrite decide_False. }
    split; [done|].
    unfold transact, dispatch, getUserMessageCount, mbind, M_bind, sload. simpl.
    by rewrite Hl.
Qed.

(** After Bob's submission Alice still reads handle 11 from message 0. *)
Lemma X6_calls_do_not_disturb_witness :
  (transact (fhe := stub_fhe) as_alice (GetEncryptedContent 0) world2).1
  = (transact (fhe := stub_fhe) as_alice (GetEncryptedContent 0) world1).1.
Proof.
  pose proof (reachable_transact (fhe := stub_fhe) (deployed ∅) as_alice
                (SubmitMessage 11 12 good_proof) (reachable_deployed ∅)) as Hreach.
  destruct (X6_calls_do_not_disturb_others (fhe := stub_fhe) world1 as_bob
              (SubmitMessage 21 22 good_proof) Hreach) as [Hreads _].
  apply (Hreads 0 as_alice (GetEncryptedContent 0)).
  - vm_compute. reflexivity.
  - apply list_elem_of_further, list_elem_of_here.
Defined.

(** ** Access grants over time *)

Section Grants.
Context `{fhe : FHE}.

Lemma transact_acl_mono e c w : acl w ⊆ acl (transact e c w).2.
Proof.
  destruct (transact_world e c w) as [->|(c' & t' & _ & _ & _ & ->)]; [done|].
  unfold recorded; cbn [acl]. intros x Hx. rewrite !elem_of_union. tauto.
Qed.

End Grants.

(** X7: no call revokes a grant.  Every (handle, account) pair in the
    access-control list before a history of calls is still in it after. *)
Theorem X7_grants_never_revoked `{fhe : FHE} (w : world) (txs : list (env * call))
    (handle : bytes32) (account : address) :
  (handle, account) ∈ acl w → (handle, account) ∈ acl (run w txs).
Proof.
  revert w. induction txs as [|[e c] txs IH]; intros w Hin; [done|].
  simpl. apply IH. by apply transact_acl_mono.
Qed.

(** Alice's grant on handle 11 survives Bob's submission. *)
Lemma X7_grants_never_revoked_witness :
  (11, alice) ∈ acl (run (fhe := stub_fhe) world1
                       [(as_bob, SubmitMessage 21 22 good_proof)]).
Proof.
  apply (X7_grants_never_revoked (fhe := stub_fhe) world1
           [(as_bob, SubmitMessage 21 22 good_proof)] 11 alice).
  vm_compute. set_unfold. tauto.
Defined.

(** X8: in every state reachable from deployment, the sender of each stored
    message holds a grant on both of its stored handles. *)
Theorem X8_owner_holds_grants `{fhe : FHE} (w : world) (messageId : uint256)
    (m : Message) :
  reachable w →
  _messages (registry w) !! messageId = Some m →
  (encryptedContent m, sender m) ∈ acl w ∧
  (encryptedTimestamp m, sender m) ∈ acl w.
Proof.
  intros Hreach. revert messageId m.
  induction Hreach as [a|w e c _ IH]; intros messageId m Hm.
  - simpl in Hm. by rewrite lookup_empty in Hm.
  - destruct (transact_world e c w) as [Hw|(c' & t' & _ & _ & _ & Hw)];
      rewrite Hw in Hm |- *; [by eapply IH|].
    simpl in Hm. rewrite lookup_insert in Hm. case_decide as Hid.
    + injection Hm as <-. unfold recorded; cbn [acl sender encryptedContent
        encryptedTimestamp]. rewrite !elem_of_union, !elem_of_singleton. tauto.
    + destruct (IH _ _ Hm) as [Hc Ht]. unfold recorded; cbn [acl].
      rewrite !elem_of_union. tauto.
Qed.

(** Bob holds grants on the handles 21 and 22 of his message 1. *)
Lemma X8_owner_holds_grants_witness : (21, bob) ∈ acl world2 ∧ (22, bob) ∈ acl world2.
Proof.
  apply (X8_owner_holds_grants (fhe := stub_fhe) world2 1
           {| sender := bob; encryptedContent := 21; encryptedTimestamp := 22;
              createdAt := 1700000012; exists_ := true |} world2_reachable).
  vm_compute. reflexivity.
Defined.

(** ** The counter at its bound *)

(** X9: the counter never wraps.  When [_totalMessages] holds the largest
    [uint256], no call changes the world: [submitMessageMock] reverts with
    Panic(0x11), and [submitMessage] reverts with ProofInvalid when an import
    is rejected and with Panic(0x11) otherwise, so no stored message is
    overwritten. *)
Theorem X9_full_counter_rejects_submissions `{fhe : FHE} (w : world) (e : env) :
  _totalMessages (registry w) = uint256_max →
  (∀ c, (transact e c w).2 = w) ∧
  (∀ content timestamp,
     (transact e (SubmitMessageMock content timestamp) w).1 = inl (Panic 17)) ∧
  (∀ ec et p,
     (transact e (SubmitMessage ec et p) w).1 =
     inl (if bool_decide (is_Some (fromExternal64 e ec p) ∧
                          is_Some (fromExternal32 e et p))
          then Panic 17 else ProofInvalid)).
Proof.
  intros Hmax. split; [|split].
  - intros c. destruct (transact_world e c w) as [Hw|(c' & t' & _ & _ & Hne & _)];
      [done|by destruct Hne].
  - intros content timestamp. unfold transact, dispatch, mbind, M_bind.
    rewrite submitMessageMock_unfold. by rewrite decide_True.
  - intros ec et p. unfold transact, dispatch, mbind, M_bind.
    rewrite submitMessage_unfold.
    destruct (fromExternal64 e ec p) as [content|];
      [|rewrite bool_decide_eq_false_2; [done|by intros [[? [=]] _]]].
    destruct (fromExternal32 e et p) as [timestamp|];
      [|rewrite bool_decide_eq_false_2; [done|by intros [_ [? [=]]]]].
    rewrite decide_True by done. by rewrite bool_decide_eq_true_2.
Qed.

(** With a good proof the submission at the bound fails on the counter. *)
Lemma X9_full_counter_witness :
  (transact (fhe := stub_fhe) as_alice (SubmitMessage 11 12 good_proof) full_world).2
    = full_world ∧
  (transact (fhe := stub_fhe) as_alice (SubmitMessageMock 5 6) full_world).1
    = inl (Panic 17).
Proof.
  destruct (X9_full_counter_rejects_submissions (fhe := stub_fhe) full_world as_alice)
    as (Hsame & Hmock & _); [reflexivity|].
  split; [apply Hsame|apply Hmock].
Defined.

(** ** The event log *)

(** X10: in every state reachable from deployment the log holds one
    creation event per stored message, in id order, and nothing else: its
    k-th entry is [MessageSubmitted] with id k and the sender and creation
    time stored at id k, its length is [_totalMessages], and
    [MessageAccessed] is never emitted. *)
Theorem X10_event_log_mirrors_storage `{fhe : FHE} (w : world) :
  reachable w →
  length (events w) = N.to_nat (_totalMessages (registry w)) ∧
  (∀ k ev, events w !! k = Some ev →
     ∃ m, _messages (registry w) !! N.of_nat k = Some m ∧
          ev = MessageSubmitted (N.of_nat k) (sender m) (createdAt m)) ∧
  (∀ messageId accessor, MessageAccessed messageId accessor ∉ events w).
Proof.
  intros Hinv%reachable_inv. rewrite (inv_events _ Hinv). split; [|split].
  - by rewrite length_fmap, length_ids_below.
  - intros k ev. unfold ids_below. rewrite !list_lookup_fmap.
    destruct (seq 0 (N.to_nat (_totalMessages (registry w))) !! k) as [j|] eqn:Hj;
      [|discriminate].
    apply lookup_seq in Hj as [-> Hk]. simpl. intros [= <-].
    destruct (messages_at_stored w (N.of_nat k) Hinv) as [Hm _]; [lia|].
    eexists. split; [exact Hm|reflexivity].
  - intros messageId accessor (i & Hev & _)%list_elem_of_fmap.
    unfold creation_event in Hev. discriminate.
Qed.

(** The second entry of the log is the creation event of Bob's message 1. *)
Lemma X10_event_log_witness :
  length (events world2) = 2%nat ∧
  ∃ m, _messages (registry world2) !! 1 = Some m ∧
       MessageSubmitted 1 bob 1700000012 = MessageSubmitted 1 (sender m) (createdAt m).
Proof.
  destruct (X10_event_log_mirrors_storage (fhe := stub_fhe) world2 world2_reachable)
    as (Hlen & Hentries & _).
  split; [exact Hlen|].
  apply (Hentries 1%nat (MessageSubmitted 1 bob 1700000012)).
  vm_compute. reflexivity.
Defined.

(** ** The frontend's hex conversion *)

Section Hex.

Lemma byte_hex_digits (b : Byte.byte) :
  ∃ c1 c2 h l,
    padStart 2 "0" (byte_toString16 b) = String c1 (String c2 EmptyString) ∧
    hex_value c1 = Some h ∧ hex_value c2 = Some l ∧
    Byte.of_N (16 * h + l) = Some b.
Proof.
  destruct b; do 4 eexists;
    (split; [vm_compute; reflexivity|]);
    (split; [vm_compute; reflexivity|]);
    (split; [vm_compute; reflexivity|]); vm_compute; reflexivity.
Qed.

Lemma hex_bytes_join (bs : list Byte.byte) :
  hex_bytes (join_empty ((λ b, padStart 2 "0" (byte_toString16 b)) <$> bs)) = Some bs.
Proof.
  induction bs as [|b bs IH]; [reflexivity|].
  destruct (byte_hex_digits b) as (c1 & c2 & h & l & Hb & Hh & Hl & Hof).
  cbn [fmap list_fmap join_empty foldr]. rewrite Hb.
  change (hex_bytes (String c1 (String c2
            (join_empty ((λ b, padStart 2 "0" (byte_toString16 b)) <$> bs)))) = Some (b :: bs)).
  cbn [hex_bytes]. by rewrite Hh, Hl, IH, Hof.
Qed.

Lemma length_join_hex (bs : list Byte.byte) :
  String.length (join_empty ((λ b, padStart 2 "0" (byte_toString16 b)) <$> bs))
  = (2 * length bs)%nat.
Proof.
  induction bs as [|b bs IH]; [reflexivity|].
  destruct (byte_hex_digits b) as (c1 & c2 & h & l & Hb & _).
  cbn [fmap list_fmap join_empty foldr]. rewrite Hb.
  change (S (S (String.length (join_empty
            ((λ b, padStart 2 "0" (byte_toString16 b)) <$> bs)))) = (2 * length (b :: bs))%nat).
  rewrite IH. simpl. lia.
Qed.

End Hex.

(** X11: [toHex] of a byte array is the prefix [0x] followed by exactly two
    characters per byte, and [toHex] of a string is that string. *)
Theorem X11_toHex_shape (bs : list Byte.byte) (s : string) :
  (∃ digits, toHex (Uint8Array bs) = String "0" (String "x" digits) ∧
             String.length digits = (2 * length bs)%nat) ∧
  String.length (toHex (Uint8Array bs)) = (2 + 2 * length bs)%nat ∧
  toHex (HexString s) = s.
Proof.
  split; [|split; [|reflexivity]].
  - eexists. split; [reflexivity|]. apply length_join_hex.
  - change (S (S (String.length (join_empty
              ((λ b, padStart 2 "0" (byte_toString16 b)) <$> bs)))) = (2 + 2 * length bs)%nat).
    rewrite length_join_hex. lia.
Qed.

(** X12: [toHex] loses nothing.  Reading back the lowercase hex digits that
    follow the prefix gives the byte array again, so two byte arrays with
    the same [toHex] are equal. *)
Theorem X12_toHex_round_trip (bs : list Byte.byte) :
  fromHex (toHex (Uint8Array bs)) = Some bs ∧
  (∀ bs', toHex (Uint8Array bs) = toHex (Uint8Array bs') → bs = bs').
Proof.
  assert (∀ l, fromHex (toHex (Uint8Array l)) = Some l) as Hrt.
  { intros l. apply hex_bytes_join. }
  split; [apply Hrt|].
  intros bs' Heq. apply (f_equal fromHex) in Heq. rewrite !Hrt in Heq. congruence.
Qed.

(** The bytes 00, 0f, ab, ff print as 0x000fabff and read back. *)
Lemma X12_toHex_round_trip_witness :
  toHex (Uint8Array [Byte.x00; Byte.x0f; Byte.xab; Byte.xff]) = "0x000fabff" ∧
  fromHex "0x000fabff" = Some [Byte.x00; Byte.x0f; Byte.xab; Byte.xff].
Proof.
  assert (toHex (Uint8Array [Byte.x00; Byte.x0f; Byte.xab; Byte.xff]) = "0x000fabff")
    as Hprint by (vm_compute; reflexivity).
  split; [exact Hprint|]. rewrite <- Hprint.
  apply (X12_toHex_round_trip [Byte.x00; Byte.x0f; Byte.xab; Byte.xff]).
Defined.

(** ** Errors of the gated reads, by the counter *)

(** X13: in a reachable state the error of a gated read is decided by the
    public counter and the stored sender.  [getEncryptedContent] and
    [getEncryptedTimestamp] fail with MessageNotFound exactly for the ids
    that are not below [_totalMessages], and with NotAuthorized exactly for
    the ids below it whose stored sender is not the caller. *)
Theorem X13_gated_read_errors_by_counter `{fhe : FHE} (w : world) (e : env)
    (messageId : uint256) :
  reachable w →
  ((transact e (GetEncryptedContent messageId) w).1 = inl MessageNotFound ↔
   _totalMessages (registry w) ≤ messageId) ∧
  ((transact e (GetEncryptedTimestamp messageId) w).1 = inl MessageNotFound ↔
   _totalMessages (registry w) ≤ messageId) ∧
  ((transact e (GetEncryptedContent messageId) w).1 = inl NotAuthorized ↔
   messageId < _totalMessages (registry w) ∧
   sender (messages_at (registry w) messageId) ≠ msg_sender e) ∧
  ((transact e (GetEncryptedTimestamp messageId) w).1 = inl NotAuthorized ↔
   messageId < _totalMessages (registry w) ∧
   sender (messages_at (registry w) messageId) ≠ msg_sender e).
Proof.
  intros Hinv%reachable_inv.
  rewrite transact_getEncryptedContent, transact_getEncryptedTimestamp. simpl.
  destruct (decide (messageId < _totalMessages (registry w))) as [Hid|Hid].
  - destruct (messages_at_stored w messageId Hinv Hid) as [_ ->].
    case_bool_decide as Hs; repeat split; try done; try lia;
      try (by intros [_ ?]).
  - rewrite (messages_at_absent w messageId Hinv Hid). simpl.
    repeat split; try done; try lia; try (by intros [? _]).
Qed.

(** Id 2 is the counter itself, so reading it fails with MessageNotFound. *)
Lemma X13_gated_read_errors_witness :
  (transact (fhe := stub_fhe) as_alice (GetEncryptedContent 2) world2).1
    = inl MessageNotFound.
Proof.
  destruct (X13_gated_read_errors_by_counter (fhe := stub_fhe) world2 as_alice 2
              world2_reachable) as ([_ Habsent] & _).
  apply Habsent. vm_compute. discriminate.
Defined.

(** ** Submitting, then reading *)

(** X14: what a submission stores can be read back by its sender.  After a
    [submitMessage] call whose two imports are accepted and whose counter is
    not at its bound, the id the counter held before the call is the last
    entry of the sender's list; for the sender, [getEncryptedContent] and
    [getEncryptedTimestamp] of that id return the two imported handles and
    [isMessageOwner] answers true; [getMessageMetadata] returns the sender,
    the block time and [exists] set; and every other caller is refused with
    NotAuthorized. *)
Theorem X14_submit_then_read `{fhe : FHE} (w : world) (e : env)
    (ec : externalEuint64) (et : externalEuint32) (p : bytes)
    (content : euint64) (timestamp : euint32) :
  fromExternal64 e ec p = Some content →
  fromExternal32 e et p = Some timestamp →
  _totalMessages (registry w) ≠ uint256_max →
  let w' := (transact e (SubmitMessage ec et p) w).2 in
  let messageId := _totalMessages (registry w) in
  last (userMessages_at (registry w') (msg_sender e)) = Some messageId ∧
  transact e (GetEncryptedContent messageId) w' = (inr (RHandle content), w') ∧
  transact e (GetEncryptedTimestamp messageId) w' = (inr (RHandle timestamp), w') ∧
  transact e (IsMessageOwner messageId) w' = (inr (RBool true), w') ∧
  transact e (GetMessageMetadata messageId) w'
    = (inr (RMetadata (msg_sender e) (block_timestamp e) true), w') ∧
  (∀ e', msg_sender e' ≠ msg_sender e →
     transact e' (GetEncryptedContent messageId) w' = (inl NotAuthorized, w') ∧
     transact e' (GetEncryptedTimestamp messageId) w' = (inl NotAuthorized, w')).
Proof.
  intros Hc Ht Hmax w' messageId.
  assert (w' = recorded e content timestamp w) as Hw'.
  { unfold w', transact, dispatch, mbind, M_bind.
    rewrite submitMessage_unfold, Hc, Ht. by rewrite decide_False. }
  pose proof (messages_at_recorded_new e content timestamp w) as Hm.
  rewrite <- Hw' in Hm. fold messageId in Hm.
  split; [|split; [|split; [|split; [|split]]]].
  - rewrite Hw', userMessages_at_recorded, decide_True by done. apply last_snoc.
  - rewrite transact_getEncryptedContent. simpl. rewrite Hm. simpl.
    by rewrite bool_decide_eq_true_2.
  - rewrite transact_getEncryptedTimestamp. simpl. rewrite Hm. simpl.
    by rewrite bool_decide_eq_true_2.
  - unfold transact, dispatch, isMessageOwner, mbind, M_bind, sload. simpl.
    rewrite Hm. simpl. by rewrite bool_decide_eq_true_2.
  - unfold transact, dispatch, getMessageMetadata, mbind, M_bind, sload. simpl.
    by rewrite Hm.
  - intros e' Hne.
    rewrite transact_getEncryptedContent, transact_getEncryptedTimestamp. simpl.
    rewrite Hm. simpl. by rewrite bool_decide_eq_false_2.
Qed.

(** Bob submits handles 21 and 22 after Alice and reads 21 back from id 1. *)
Lemma X14_submit_then_read_witness :
  transact (fhe := stub_fhe) as_bob (GetEncryptedContent 1) world2
    = (inr (RHandle 21), world2).
Proof.
  destruct (X14_submit_then_read (fhe := stub_fhe) world1 as_bob 21 22 good_proof 21 22)
    as (_ & Hcontent & _); [reflexivity|reflexivity|vm_compute; discriminate|].
  exact Hcontent.
Defined.
